(** * A verification model of osay's [say.py]

    The CLI keeps a bounded cache of synthesized audio under
    [~/.osay/audios] (class [AudioCache]), talks to the OpenAI speech API
    ([OpenAITTSProvider]) and orchestrates both in [TTSService].  This file
    embeds those classes as Rocq functions:

    - Python [str] values are lists of Unicode code points ([pystr]);
    - JSON documents follow CPython's [json] module (the C scanner used by
      [json.load], the ASCII encoder used by [json.dump]);
    - the file system is an association list from resolved paths to nodes,
      threaded through a state and exception monad together with a log of
      the external effects (API requests, writes, unlinks, child processes)
      and a clock that stamps modification times;
    - everything that comes from outside the program (random bytes of
      [uuid4], the API's answer, the exit status of a player) is an explicit
      argument, so each run is a function of its inputs. *)

From Stdlib Require Import String Ascii ZArith List Bool Lia.
From Stdlib Require Import Sorting.Sorted Sorting.Permutation.
Import ListNotations.
Open Scope Z_scope.
Set Warnings "-register-all".

(** ** Python strings *)
Module PyStr.

Definition pystr := list Z.

(** A Rocq string literal, as the list of its code points. *)
Definition s2z (s : string) : pystr :=
  map (fun c => Z.of_nat (nat_of_ascii c)) (list_ascii_of_string s).

Definition eqb (a b : pystr) : bool :=
  if list_eq_dec Z.eq_dec a b then true else false.

(** [s.endswith(suf)] *)
Definition ends_with (suf s : pystr) : bool :=
  Nat.leb (length suf) (length s) && eqb (skipn (length s - length suf) s) suf.

(** [s.startswith(pre)] *)
Definition starts_with (pre s : pystr) : bool :=
  Nat.leb (length pre) (length s) && eqb (firstn (length pre) s) pre.

(** [sep.join(l)] *)
Fixpoint join (sep : pystr) (l : list pystr) : pystr :=
  match l with
  | [] => []
  | [x] => x
  | x :: l' => x ++ sep ++ join sep l'
  end.

(** [s.split(c)] for a one-character separator. *)
Fixpoint split_on (c : Z) (s : pystr) : list pystr :=
  match s with
  | [] => [[]]
  | x :: r =>
      if x =? c then [] :: split_on c r
      else match split_on c r with
           | [] => [[x]]
           | w :: ws => (x :: w) :: ws
           end
  end.

(** A JSON text written with single quotes in place of double quotes
    (Rocq string literals would need doubled quotes). *)
Definition s2j (s : string) : pystr := map (fun c => if c =? 39 then 34 else c) (s2z s).

(** [x in l] for a list of strings. *)
Definition mem (x : pystr) (l : list pystr) : bool := existsb (eqb x) l.

(** [bool(s)] for an optional string ([None] or [""] is falsy). *)
Definition truthy_opt (s : option pystr) : bool :=
  match s with Some (_ :: _) => true | _ => false end.

End PyStr.
Import PyStr.

(** ** JSON, as CPython's [json] module reads and writes it *)
Module Json.

(** Parsed values.  Numbers keep what decides their truthiness: an [int]
    keeps its value; a finite [float] literal keeps its exact decimal value
    [m * 10^e] before rounding to a double; [NaN] and the infinities are
    [JSpecial]. *)
Inductive json :=
| JNull
| JBool (b : bool)
| JInt (z : Z)
| JFloat (m : Z) (e : Z)
| JSpecial
| JStr (s : pystr)
| JArr (l : list json)
| JObj (kv : list (pystr * json)).

(** A decimal [m * 10^e] rounds to [0.0] as a double when it is at most
    half the smallest subnormal, [2^-1075] (a tie rounds to even, i.e. 0). *)
Definition float_is_zero (m e : Z) : bool :=
  (m =? 0) || ((e <? 0) && (Z.abs m * 2 ^ 1075 <=? 10 ^ (- e))).

(** [bool(v)] on the Python object [json.load] returns. *)
Definition truthy (v : json) : bool :=
  match v with
  | JNull => false
  | JBool b => b
  | JInt z => negb (z =? 0)
  | JFloat m e => negb (float_is_zero m e)
  | JSpecial => true
  | JStr s => match s with [] => false | _ => true end
  | JArr l => match l with [] => false | _ => true end
  | JObj kv => match kv with [] => false | _ => true end
  end.

(** [d[k]] on the dict built from the pairs: the last binding wins. *)
Definition obj_get (k : pystr) (kv : list (pystr * json)) : option json :=
  fold_left (fun acc p => if eqb k (fst p) then Some (snd p) else acc) kv None.

(** *** Encoder: [json.dump(obj, f, indent=2)], [ensure_ascii=True] *)

Definition hexd (n : Z) : Z := if n <? 10 then 48 + n else 87 + n.

(** ['{0:04x}'.format(n)] for [0 <= n < 0x10000] *)
Definition hex4 (n : Z) : pystr :=
  [hexd (n / 4096 mod 16); hexd (n / 256 mod 16); hexd (n / 16 mod 16); hexd (n mod 16)].

(** One code point through [ESCAPE_DCT] / the [\uXXXX] fallback of
    [encode_basestring_ascii]; astral code points become a surrogate pair. *)
Definition esc (c : Z) : pystr :=
  if c =? 92 then [92; 92]
  else if c =? 34 then [92; 34]
  else if c =? 8 then [92; 98]
  else if c =? 12 then [92; 102]
  else if c =? 10 then [92; 110]
  else if c =? 13 then [92; 114]
  else if c =? 9 then [92; 116]
  else if (32 <=? c) && (c <=? 126) then [c]
  else if c <? 65536 then 92 :: 117 :: hex4 c
  else let n := c - 65536 in
       92 :: 117 :: hex4 (Z.lor 55296 (Z.land (Z.shiftr n 10) 1023))
       ++ 92 :: 117 :: hex4 (Z.lor 56320 (Z.land n 1023)).

Definition enc_str (s : pystr) : pystr := 34 :: flat_map esc s ++ [34].

(** A [str] or [None] value. *)
Definition enc_opt (v : option pystr) : pystr :=
  match v with Some s => enc_str s | None => s2z "null" end.

Definition enc_item (kv : pystr * option pystr) : pystr :=
  enc_str (fst kv) ++ s2z ": " ++ enc_opt (snd kv).

(** The indent string ['\n' + ' ' * 2]. *)
Definition nl_indent : pystr := [10; 32; 32].

(** [json.dump] of a flat dict whose values are [str] or [None], with
    [indent=2] and the default separators [(',', ': ')]. *)
Definition dump_flat (kvs : list (pystr * option pystr)) : pystr :=
  match kvs with
  | [] => s2z "{}"
  | _ => [123] ++ nl_indent ++ join (44 :: nl_indent) (map enc_item kvs) ++ [10; 125]
  end.

(** The value [json.load] gives back for such a dict. *)
Definition opt_json (v : option pystr) : json :=
  match v with Some s => JStr s | None => JNull end.

(** *** Decoder: [json.load] (C scanner, [strict=True]) *)

Definition is_ws (c : Z) : bool := (c =? 32) || (c =? 9) || (c =? 10) || (c =? 13).

Fixpoint skip_ws (s : pystr) : pystr :=
  match s with
  | c :: r => if is_ws c then skip_ws r else s
  | [] => []
  end.

Definition hexval (c : Z) : option Z :=
  if (48 <=? c) && (c <=? 57) then Some (c - 48)
  else if (97 <=? c) && (c <=? 102) then Some (c - 87)
  else if (65 <=? c) && (c <=? 70) then Some (c - 55)
  else None.

Definition dec4 (a b c d : Z) : option Z :=
  match hexval a, hexval b, hexval c, hexval d with
  | Some x, Some y, Some z, Some w => Some (((x * 16 + y) * 16 + z) * 16 + w)
  | _, _, _, _ => None
  end.

Definition is_high (u : Z) : bool := (55296 <=? u) && (u <=? 56319).
Definition is_low (u : Z) : bool := (56320 <=? u) && (u <=? 57343).

(** A [str] whose code points are all in [0 .. 0x10FFFF] and in which no
    high surrogate comes right before a low surrogate. *)
Fixpoint no_surrogate_pair (s : pystr) : bool :=
  match s with
  | [] => true
  | c :: r =>
      (0 <=? c) && (c <=? 1114111)
      && match r with d :: _ => negb (is_high c && is_low d) | [] => true end
      && no_surrogate_pair r
  end.

(** A dict item whose key and (string) value are both free of surrogate pairs. *)
Definition item_ok (kv : pystr * option pystr) : Prop :=
  no_surrogate_pair (fst kv) = true /\ match snd kv with Some s => no_surrogate_pair s = true | None => True end.

(** [Py_UNICODE_JOIN_SURROGATES] *)
Definition join_sur (hi lo : Z) : Z :=
  65536 + Z.lor (Z.shiftl (Z.land hi 1023) 10) (Z.land lo 1023).

(** The one-letter escapes after a backslash. *)
Definition simple_escape (e : Z) : option Z :=
  if e =? 34 then Some 34
  else if e =? 92 then Some 92
  else if e =? 47 then Some 47
  else if e =? 98 then Some 8
  else if e =? 102 then Some 12
  else if e =? 110 then Some 10
  else if e =? 114 then Some 13
  else if e =? 116 then Some 9
  else None.

Definition cons_fst (c : Z) (r : option (pystr * pystr)) : option (pystr * pystr) :=
  match r with Some (s, rest) => Some (c :: s, rest) | None => None end.

(** [scanstring_unicode], started just after the opening quote: returns the
    decoded string and the input after the closing quote. *)
Fixpoint scan_string (s : pystr) : option (pystr * pystr) :=
  match s with
  | [] => None
  | c :: r =>
      if c =? 34 then Some ([], r)
      else if c =? 92 then
        match r with
        | [] => None
        | e :: r2 =>
            if e =? 117 then
              match r2 with
              | a :: b :: c' :: d :: r3 =>
                  match dec4 a b c' d with
                  | None => None
                  | Some u =>
                      if is_high u then
                        match r3 with
                        | x1 :: x2 :: a2 :: b2 :: c2 :: d2 :: r4 =>
                            if (x1 =? 92) && (x2 =? 117) then
                              match dec4 a2 b2 c2 d2 with
                              | None => None
                              | Some u2 =>
                                  if is_low u2 then cons_fst (join_sur u u2) (scan_string r4)
                                  else cons_fst u (scan_string r3)
                              end
                            else cons_fst u (scan_string r3)
                        | _ => cons_fst u (scan_string r3)
                        end
                      else cons_fst u (scan_string r3)
                  end
              | _ => None
              end
            else match simple_escape e with
                 | Some ch => cons_fst ch (scan_string r2)
                 | None => None
                 end
        end
      else if c <? 32 then None
      else cons_fst c (scan_string r)
  end.

Definition is_digit (c : Z) : bool := (48 <=? c) && (c <=? 57).

Fixpoint take_digits (s : pystr) : pystr * pystr :=
  match s with
  | c :: r => if is_digit c then let (ds, rest) := take_digits r in (c :: ds, rest) else ([], s)
  | [] => ([], [])
  end.

Definition digits_val (ds : pystr) : Z := fold_left (fun acc d => acc * 10 + (d - 48)) ds 0.

(** [sys.int_info.default_max_str_digits]: longer [int] literals make
    [int()] raise [ValueError]. *)
Definition max_str_digits : nat := 4300.

(** [_match_number_unicode]: an optional minus, [0] or a non-zero digit
    run, an optional fraction with at least one digit, an optional exponent
    with at least one digit (otherwise the [e] is given back). *)
Definition parse_number (s : pystr) : option (json * pystr) :=
  let '(neg, s1) := match s with 45 :: r => (true, r) | _ => (false, s) end in
  let ipart :=
    match s1 with
    | c :: r => if c =? 48 then Some ([48], r)
                else if is_digit c then let (ds, rest) := take_digits r in Some (c :: ds, rest)
                else None
    | [] => None
    end in
  match ipart with
  | None => None
  | Some (ids, s2) =>
      let '(fds, s3) :=
        match s2 with
        | 46 :: c :: r => if is_digit c then let (ds, rest) := take_digits r in (Some (c :: ds), rest)
                          else (None, s2)
        | _ => (None, s2)
        end in
      let '(ex, s4) :=
        match s3 with
        | e :: r => if (e =? 101) || (e =? 69) then
                      let '(eneg, r1) := match r with
                                         | 45 :: r' => (true, r') | 43 :: r' => (false, r')
                                         | _ => (false, r) end in
                      match take_digits r1 with
                      | ([], _) => (None, s3)
                      | (eds, rest) => (Some (if eneg then - digits_val eds else digits_val eds), rest)
                      end
                    else (None, s3)
        | [] => (None, s3)
        end in
      let sgn := fun z => if neg then - z else z in
      match fds, ex with
      | None, None =>
          if Nat.ltb max_str_digits (length ids) then None
          else Some (JInt (sgn (digits_val ids)), s4)
      | _, _ =>
          let fr := match fds with Some f => f | None => [] end in
          let e := match ex with Some z => z | None => 0 end in
          Some (JFloat (sgn (digits_val (ids ++ fr))) (e - Z.of_nat (length fr)), s4)
      end
  end.

(** [scan_once_unicode] and the object/array loops, with a fuel bound
    ([json.load] uses one more than the input length: every nested call
    consumes at least one character). *)
Fixpoint parse_value (fuel : nat) (s : pystr) {struct fuel} : option (json * pystr) :=
  match fuel with
  | O => None
  | S f =>
      match s with
      | [] => None
      | c :: r =>
          if c =? 34 then
            match scan_string r with Some (x, r') => Some (JStr x, r') | None => None end
          else if c =? 123 then
            match skip_ws r with
            | 125 :: r2 => Some (JObj [], r2)
            | r1 => match parse_members f r1 with
                    | Some (kvs, r2) => Some (JObj kvs, r2)
                    | None => None
                    end
            end
          else if c =? 91 then
            match skip_ws r with
            | 93 :: r2 => Some (JArr [], r2)
            | r1 => match parse_elems f r1 with
                    | Some (vs, r2) => Some (JArr vs, r2)
                    | None => None
                    end
            end
          else if starts_with (s2z "null") s then Some (JNull, skipn 4 s)
          else if starts_with (s2z "true") s then Some (JBool true, skipn 4 s)
          else if starts_with (s2z "false") s then Some (JBool false, skipn 5 s)
          else if starts_with (s2z "NaN") s then Some (JSpecial, skipn 3 s)
          else if starts_with (s2z "Infinity") s then Some (JSpecial, skipn 8 s)
          else if starts_with (s2z "-Infinity") s then Some (JSpecial, skipn 9 s)
          else parse_number s
      end
  end
with parse_members (fuel : nat) (s : pystr) {struct fuel} : option (list (pystr * json) * pystr) :=
  match fuel with
  | O => None
  | S f =>
      match s with
      | 34 :: r =>
          match scan_string r with
          | None => None
          | Some (k, r1) =>
              match skip_ws r1 with
              | 58 :: r2 =>
                  match parse_value f (skip_ws r2) with
                  | None => None
                  | Some (v, r3) =>
                      match skip_ws r3 with
                      | 125 :: r4 => Some ([(k, v)], r4)
                      | 44 :: r4 =>
                          match parse_members f (skip_ws r4) with
                          | Some (kvs, r5) => Some ((k, v) :: kvs, r5)
                          | None => None
                          end
                      | _ => None
                      end
                  end
              | _ => None
              end
          end
      | _ => None
      end
  end
with parse_elems (fuel : nat) (s : pystr) {struct fuel} : option (list json * pystr) :=
  match fuel with
  | O => None
  | S f =>
      match parse_value f s with
      | None => None
      | Some (v, r3) =>
          match skip_ws r3 with
          | 93 :: r4 => Some ([v], r4)
          | 44 :: r4 =>
              match parse_elems f (skip_ws r4) with
              | Some (vs, r5) => Some (v :: vs, r5)
              | None => None
              end
          | _ => None
          end
      end
  end.

(** [json.loads(s)]: leading and trailing whitespace, nothing else after
    the value ("Extra data").  [None] is any raised exception. *)
Definition loads (s : pystr) : option json :=
  match parse_value (S (length s)) (skip_ws s) with
  | Some (v, rest) => match skip_ws rest with [] => Some v | _ => None end
  | None => None
  end.

End Json.
Import Json.

(** ** Files, effects and the monad the methods run in *)
Module Fs.

(** An absolute path as its components: [pathlib] parses a string by
    splitting on ['/'] and dropping empty and ['.'] parts; ['..'] stays
    (pathlib is lexical) and is resolved by the OS on access. *)
Definition path := list pystr.

Definition comps (s : pystr) : list pystr :=
  filter (fun c => negb (eqb c [] || eqb c [46])) (split_on 47 s).

Definition is_abs (s : pystr) : bool := match s with c :: _ => c =? 47 | [] => false end.

(** [base / s] *)
Definition pjoin (base : path) (s : pystr) : path :=
  if is_abs s then comps s else base ++ comps s.

(** [str(p)] *)
Definition pstr (p : path) : pystr := 47 :: join [47] p.

(** What the OS does with ['..'] (no symbolic links in the model). *)
Definition os_resolve (p : path) : path :=
  rev (fold_left (fun st c => if eqb c [46; 46] then tl st else c :: st) p []).

Definition path_eqb (p q : path) : bool :=
  if list_eq_dec (list_eq_dec Z.eq_dec) p q then true else false.

(** A directory entry with its [st_mtime].  File contents are the decoded
    text: a file whose bytes are not valid UTF-8 makes [open(...).read()]
    raise, exactly as a text that is not JSON makes [json.load] raise, and
    [_load_metadata] treats both alike. *)
Inductive node :=
| RegFile (mtime : Z) (data : pystr)
| Folder (mtime : Z).

Definition node_mtime (n : node) : Z := match n with RegFile m _ => m | Folder m => m end.

(** Externally visible effects, in the order they happen. *)
Inductive event :=
| EApi (voice fmt : pystr)          (* a request to the speech API *)
| ESynth (target : option pystr)    (* [self.provider.synthesize(...)] *)
| EWrite (p : path)
| EUnlink (p : path)
| ERun (argv : list pystr).         (* [subprocess.run(argv, ...)] *)

Record world := mkWorld { files : list (path * node); log : list event; clock : Z }.

(** Exceptions.  [RuntimeWrap e] is [RuntimeError(f"OpenAI API error: {e}")]. *)
Inductive exn :=
| ValueError (msg : pystr)
| RuntimeError (msg : pystr)
| RuntimeWrap (e : exn)
| KeyError (k : pystr)
| TypeError
| FileNotFoundError
| IsADirectoryError
| FileExistsError
| CalledProcessError
| KeyboardInterrupt
| AuthenticationError
| APIError
| StreamError.

(** [KeyboardInterrupt] is a [BaseException]; [except Exception] lets it through. *)
Definition is_Exception (e : exn) : bool :=
  match e with KeyboardInterrupt => false | _ => true end.

Inductive result (A : Type) := Ok (a : A) | Err (e : exn).
Arguments Ok {A}. Arguments Err {A}.

Definition M (A : Type) := world -> world * result A.

Definition ret {A} (a : A) : M A := fun w => (w, Ok a).
Definition throw {A} (e : exn) : M A := fun w => (w, Err e).
Definition bind {A B} (m : M A) (k : A -> M B) : M B :=
  fun w => match m w with (w', Ok a) => k a w' | (w', Err e) => (w', Err e) end.
Definition gets {A} (f : world -> A) : M A := fun w => (w, Ok (f w)).

(** [try: m except: h] *)
Definition catch {A} (m : M A) (h : exn -> M A) : M A :=
  fun w => match m w with (w', Err e) => h e w' | r => r end.

(** [try: m finally: c] *)
Definition finally {A} (m : M A) (c : M unit) : M A :=
  fun w => match m w with
           | (w', r) => match c w' with (w'', Ok _) => (w'', r) | (w'', Err e) => (w'', Err e) end
           end.

Notation "x <- m ;; k" := (bind m (fun x => k)) (at level 61, m at next level, right associativity).

Definition emit (ev : event) : M unit :=
  fun w => (mkWorld (files w) (log w ++ [ev]) (clock w), Ok tt).

(** [os.stat] / [open] see the resolved path. *)
Definition lookup (w : world) (p : path) : option node :=
  match find (fun e => path_eqb (fst e) (os_resolve p)) (files w) with
  | Some (_, n) => Some n
  | None => None
  end.

Definition remove_entry (q : path) (fs : list (path * node)) : list (path * node) :=
  filter (fun e => negb (path_eqb (fst e) q)) fs.

(** [Path.exists()] *)
Definition path_exists (w : world) (p : path) : bool :=
  match lookup w p with Some _ => true | None => false end.

(** [Path.unlink()] / [os.unlink] *)
Definition unlink (p : path) : M unit :=
  fun w => match lookup w p with
           | None => (w, Err FileNotFoundError)
           | Some (Folder _) => (w, Err IsADirectoryError)
           | Some (RegFile _ _) =>
               let q := os_resolve p in
               (mkWorld (remove_entry q (files w)) (log w ++ [EUnlink q]) (clock w), Ok tt)
           end.

(** [open(p, 'w')] followed by writing [data]: the entry is replaced in
    place or added, and stamped with the clock. *)
Fixpoint upsert (q : path) (n : node) (fs : list (path * node)) : list (path * node) :=
  match fs with
  | [] => [(q, n)]
  | e :: fs' => if path_eqb (fst e) q then (q, n) :: fs' else e :: upsert q n fs'
  end.

Definition write_file (p : path) (data : pystr) : M unit :=
  fun w => match lookup w p with
           | Some (Folder _) => (w, Err IsADirectoryError)
           | _ => let q := os_resolve p in
                  (mkWorld (upsert q (RegFile (clock w) data) (files w)) (log w ++ [EWrite q])
                           (clock w + 1), Ok tt)
           end.

(** [open(p).read()] *)
Definition read_text (w : world) (p : path) : option pystr :=
  match lookup w p with Some (RegFile _ d) => Some d | _ => None end.

(** [p.mkdir(parents=True, exist_ok=True)] (the parents of the cache
    directory are not modelled). *)
Definition mkdir_p (p : path) : M unit :=
  fun w => match lookup w p with
           | Some (Folder _) => (w, Ok tt)
           | Some (RegFile _ _) => (w, Err FileExistsError)
           | None => (mkWorld (files w ++ [(os_resolve p, Folder (clock w))]) (log w) (clock w + 1), Ok tt)
           end.

(** A path as [str(Path)] prints it: no empty, ['.'] or ['..'] part and
    no ['/'] inside a part. *)
Definition canonical (p : path) : bool :=
  forallb (fun c => negb (eqb c []) && negb (eqb c [46]) && negb (eqb c [46; 46])
                    && negb (existsb (Z.eqb 47) c)) p.

(** A path with no ['..'] part, which the OS leaves as it is. *)
Definition no_dotdot (p : path) : bool := forallb (fun c => negb (eqb c [46; 46])) p.

(** How a child process ends. *)
Inductive proc := PExit0 | PExitNonzero | PNotFound | PInterrupt.

(** [subprocess.run(argv, check=True)] *)
Definition run_proc (argv : list pystr) (o : proc) : M unit :=
  _ <- emit (ERun argv) ;;
  match o with
  | PExit0 => ret tt
  | PExitNonzero => throw CalledProcessError
  | PNotFound => throw FileNotFoundError
  | PInterrupt => throw KeyboardInterrupt
  end.

(** [sorted(l, key=k, reverse=True)]: a stable sort on descending keys
    (equal keys keep their order). *)
Fixpoint ins_desc {A} (k : A -> Z) (x : A) (l : list A) : list A :=
  match l with
  | [] => [x]
  | y :: l' => if k y <? k x then x :: l else y :: ins_desc k x l'
  end.

Definition sort_desc {A} (k : A -> Z) (l : list A) : list A :=
  fold_left (fun acc x => ins_desc k x acc) l [].

End Fs.
Import Fs.

(** ** [AudioCache] *)
Module Cache.

Definition MAX_CACHE_SIZE : nat := 10.

Section AudioCache.

(** [AudioCache.CACHE_DIR], [Path.home() / ".osay" / "audios"]: an
    absolute path without ['..'] parts. *)
Variable CACHE_DIR : path.

(** The pattern of [self.CACHE_DIR.glob("*.json")]: an entry directly
    inside the cache directory whose name ends with [.json] (files and
    folders alike). *)
Definition glob_match (k : path) : bool :=
  if path_eqb (firstn (length CACHE_DIR) k) CACHE_DIR then
    match skipn (length CACHE_DIR) k with
    | [n] => ends_with (s2z ".json") n
    | _ => false
    end
  else false.

(** [self.CACHE_DIR.glob("*.json")], in directory order. *)
Definition glob_json (w : world) : list path :=
  map fst (filter (fun e => glob_match (fst e)) (files w)).

Definition mtime_of (w : world) (p : path) : Z :=
  match lookup w p with Some n => node_mtime n | None => 0 end.

(** [sorted(self.CACHE_DIR.glob("*.json"), key=lambda f: f.stat().st_mtime, reverse=True)] *)
Definition sorted_json (w : world) : list path := sort_desc (mtime_of w) (glob_json w).

(** [_load_metadata]: every exception (missing file, folder, bad JSON) is
    swallowed into [None]. *)
Definition load_metadata (w : world) (p : path) : option json :=
  match read_text w p with Some d => loads d | None => None end.

(** [metadata["audio_file"]] *)
Definition getitem (v : json) (k : pystr) : M json :=
  match v with
  | JObj kv => match obj_get k kv with Some x => ret x | None => throw (KeyError k) end
  | _ => throw TypeError
  end.

(** [self.CACHE_DIR / value] *)
Definition path_div (v : json) : M path :=
  match v with JStr s => ret (pjoin CACHE_DIR s) | _ => throw TypeError end.

(** The body of the eviction loop for one [old_file]. *)
Definition evict_one (old_file : path) : M unit :=
  metadata <- gets (fun w => load_metadata w old_file) ;;
  _ <- match metadata with
       | Some md =>
           if truthy md then
             af <- getitem md (s2z "audio_file") ;;
             audio_path <- path_div af ;;
             b <- gets (fun w => path_exists w audio_path) ;;
             if b then unlink audio_path else ret tt
           else ret tt
       | None => ret tt
       end ;;
  unlink old_file.

Fixpoint evict_all (l : list path) : M unit :=
  match l with
  | [] => ret tt
  | f :: l' => _ <- evict_one f ;; evict_all l'
  end.

(** [_cleanup_old_files] *)
Definition cleanup_old_files : M unit :=
  fun w =>
    let audio_files := sorted_json w in
    if Nat.ltb MAX_CACHE_SIZE (length audio_files)
    then evict_all (skipn MAX_CACHE_SIZE audio_files) w
    else (w, Ok tt).

(** [AudioCache.__init__] *)
Definition init : M unit := _ <- mkdir_p CACHE_DIR ;; cleanup_old_files.

(** [list_cached] *)
Definition list_cached (w : world) : list json :=
  flat_map (fun p => match load_metadata w p with
                     | Some md => if truthy md then [md] else []
                     | None => []
                     end)
           (sorted_json w).

(** [get_by_id] *)
Definition get_by_id (w : world) (cache_id : pystr) : option json :=
  load_metadata w (pjoin CACHE_DIR (cache_id ++ s2z ".json")).

(** ['%0{w}x' % n] for [0 <= n < 16^w]: [w] lowercase hex digits, most
    significant first. *)
Fixpoint hexpad (w : nat) (n : Z) : pystr :=
  match w with
  | O => []
  | S w' => hexpad w' (n / 16) ++ [hexd (n mod 16)]
  end.

(** A lowercase hex digit, as [hexd] writes them. *)
Definition hexdigit (c : Z) : Prop := (48 <= c <= 57) \/ (97 <= c <= 102).

(** [uuid.uuid4()]: [UUID(bytes=os.urandom(16), version=4)], where [r] is
    the big-endian integer of the 16 random bytes. *)
Definition uuid4_int (r : Z) : Z :=
  let i := Z.land r (Z.lnot (Z.shiftl 49152 48)) in
  let i := Z.lor i (Z.shiftl 32768 48) in
  let i := Z.land i (Z.lnot (Z.shiftl 61440 64)) in
  Z.lor i (Z.shiftl 4 76).

(** [UUID.__str__] *)
Definition uuid_str (n : Z) : pystr :=
  let h := hexpad 32 n in
  firstn 8 h ++ [45] ++ firstn 4 (skipn 8 h) ++ [45] ++ firstn 4 (skipn 12 h)
  ++ [45] ++ firstn 4 (skipn 16 h) ++ [45] ++ skipn 20 h.

(** [generate_cache_path(format)] with the random bytes [r] of its [uuid4]. *)
Definition generate_cache_path (format : pystr) (r : Z) : pystr * pystr :=
  let cache_id := firstn 8 (uuid_str (uuid4_int r)) in
  let cached_audio_name := cache_id ++ [46] ++ format in
  let cached_audio_path := pjoin CACHE_DIR cached_audio_name in
  (cache_id, pstr cached_audio_path).

(** The dict [save_metadata] builds. *)
Definition metadata_record (cache_id timestamp text : pystr) (voice : option pystr)
    (format provider : pystr) (instructions : option pystr) : list (pystr * option pystr) :=
  [(s2z "id", Some cache_id); (s2z "timestamp", Some timestamp); (s2z "text", Some text);
   (s2z "voice", voice); (s2z "format", Some format); (s2z "provider", Some provider);
   (s2z "instructions", instructions); (s2z "audio_file", Some (cache_id ++ [46] ++ format))].

(** [save_metadata]; [timestamp] is [datetime.now().isoformat()]. *)
Definition save_metadata (timestamp : pystr) (cache_id text : pystr) (voice : option pystr)
    (format provider : pystr) (instructions : option pystr) : M unit :=
  let metadata := metadata_record cache_id timestamp text voice format provider instructions in
  let metadata_file := pjoin CACHE_DIR (cache_id ++ s2z ".json") in
  write_file metadata_file (dump_flat metadata).

(** [play(cache_id)]; [afplay] is how the player process ends. *)
Definition play (afplay : proc) (cache_id : pystr) : M bool :=
  metadata <- gets (fun w => get_by_id w cache_id) ;;
  match metadata with
  | Some md =>
      if truthy md then
        af <- getitem md (s2z "audio_file") ;;
        audio_path <- path_div af ;;
        b <- gets (fun w => path_exists w audio_path) ;;
        if negb b then ret false
        else catch (_ <- run_proc [s2z "afplay"; pstr audio_path] afplay ;; ret true)
                   (fun e => match e with CalledProcessError => ret false | _ => throw e end)
      else ret false
  | None => ret false
  end.

End AudioCache.
End Cache.
Import Cache.

(** ** [OpenAITTSProvider.synthesize] *)
Module OpenAI.

Definition VOICES : list pystr :=
  map s2z ["alloy"%string; "ash"%string; "ballad"%string; "coral"%string; "echo"%string; "fable"%string; "nova"%string; "onyx"%string; "sage"%string; "shimmer"%string].
Definition DEFAULT_VOICE : pystr := s2z "onyx".
(** The keys of [AUDIO_FORMATS], in order. *)
Definition AUDIO_FORMATS : list pystr := map s2z ["mp3"%string; "opus"%string; "aac"%string; "flac"%string; "wav"%string; "pcm"%string].
Definition DEFAULT_FORMAT : pystr := s2z "mp3".

Definition voice_error (voice : pystr) : exn :=
  ValueError (s2z "Invalid voice '" ++ voice ++ s2z "'. Available: " ++ join (s2z ", ") VOICES).
Definition format_error (fmt : pystr) : exn :=
  ValueError (s2z "Invalid format '" ++ fmt ++ s2z "'. Available: " ++ join (s2z ", ") AUDIO_FORMATS).

Definition auth_message : pystr :=
  s2z "OpenAI API key is invalid or not set. Set OPENAI_API_KEY environment variable.".

(** What the outside world does during one call. *)
Inductive api_outcome := ApiOk | ApiAuthFail | ApiFail | ApiInterrupt.
(** [response.stream_to_file]: all the audio, or a part of it and then a
    transport error or an interrupt. *)
Inductive stream_outcome := StreamOk (audio : pystr) | StreamBroken (part : pystr) | StreamInterrupted (part : pystr).

Record env := mkEnv {
  api : api_outcome;
  stream : stream_outcome;
  tmp_path : path;          (* the name [NamedTemporaryFile] picks *)
  afplay_out : proc;
  ffplay_out : proc }.

Section Provider.
Variable cwd : path.
Variable E : env.

(** [client.audio.speech.with_streaming_response.create(...)] *)
Definition api_create (voice fmt : pystr) : M unit :=
  _ <- emit (EApi voice fmt) ;;
  match api E with
  | ApiOk => ret tt
  | ApiAuthFail => throw AuthenticationError
  | ApiFail => throw APIError
  | ApiInterrupt => throw KeyboardInterrupt
  end.

Definition stream_to_file (p : path) : M unit :=
  match stream E with
  | StreamOk audio => write_file p audio
  | StreamBroken part => _ <- write_file p part ;; throw StreamError
  | StreamInterrupted part => _ <- write_file p part ;; throw KeyboardInterrupt
  end.

(** [tempfile.NamedTemporaryFile(suffix=suffix, delete=False)] creates the
    empty file. *)
Definition named_temporary_file : M path :=
  _ <- write_file (tmp_path E) [] ;; ret (tmp_path E).

(** The player choice of the no-[output_file] branch. *)
Definition play_tmp (fmt : pystr) (tmp : path) : M unit :=
  if mem fmt (map s2z ["wav"%string; "pcm"%string; "mp3"%string; "aac"%string]) then
    run_proc [s2z "afplay"; pstr tmp] (afplay_out E)
  else
    catch (run_proc [s2z "ffplay"; s2z "-autoexit"; s2z "-nodisp"; pstr tmp] (ffplay_out E))
          (fun e => match e with
                    | CalledProcessError | FileNotFoundError =>
                        run_proc [s2z "afplay"; pstr tmp] (afplay_out E)
                    | _ => throw e
                    end).

(** The [try] block of [synthesize]. *)
Definition synth_body (text : pystr) (output_file : option pystr) (voice fmt : pystr) : M unit :=
  _ <- api_create voice fmt ;;
  match output_file with
  | Some ((_ :: _) as f) => stream_to_file (pjoin cwd f)
  | _ =>
      tmp <- named_temporary_file ;;
      _ <- stream_to_file tmp ;;
      finally (play_tmp fmt tmp) (unlink tmp)
  end.

Definition synthesize (text : pystr) (output_file voice : option pystr)
    (instructions : option pystr) (response_format : option pystr) : M unit :=
  let voice := match voice with Some ((_ :: _) as v) => v | _ => DEFAULT_VOICE end in
  if negb (mem voice VOICES) then throw (voice_error voice) else
  let fmt := match response_format with Some ((_ :: _) as f) => f | _ => DEFAULT_FORMAT end in
  if negb (mem fmt AUDIO_FORMATS) then throw (format_error fmt) else
  catch (synth_body text output_file voice fmt)
        (fun e => match e with
                  | AuthenticationError => throw (RuntimeError auth_message)
                  | _ => if is_Exception e then throw (RuntimeWrap e) else throw e
                  end).

End Provider.
End OpenAI.

(** ** [TTSService.synthesize] *)
Module Service.

(** The provider [TTSService] selected: its class name and whether it has
    a [DEFAULT_VOICE] attribute. *)
Record provider := mkProvider { class_name : pystr; default_voice : option pystr }.

Definition openai_provider : provider := mkProvider (s2z "OpenAITTSProvider") (Some OpenAI.DEFAULT_VOICE).
Definition macos_provider : provider := mkProvider (s2z "MacOSsayProvider") None.

(** What [self.provider.synthesize(text, target, ...)] does, as the
    orchestrator sees it: both providers write at most their [target]
    ([stream_to_file(output_file)], [say -o output_file]), possibly
    partially, and may raise. *)
Record prov_outcome := mkOutcome { writes : option pystr; raises : option exn }.

(** The inputs from outside one call: the provider's behaviour, the exit
    of the [afplay] run, the [uuid4] bytes and [datetime.now().isoformat()]. *)
Record env := mkEnv { prov : prov_outcome; afplay : proc; draw : Z; now_iso : pystr }.

Section TTSService.
Variable CACHE_DIR : path.
Variable cwd : path.
Variable P : provider.
Variable E : env.

Definition provider_synthesize (target : option pystr) : M unit :=
  _ <- emit (ESynth target) ;;
  _ <- match target, writes (prov E) with
       | Some ((_ :: _) as t), Some audio => write_file (pjoin cwd t) audio
       | _, _ => ret tt
       end ;;
  match raises (prov E) with Some e => throw e | None => ret tt end.

Definition synthesize (text : pystr) (output_file voice instructions response_format : option pystr)
    (cache : bool) : M unit :=
  let voice := if negb (truthy_opt voice) then
                 match default_voice P with Some d => Some d | None => voice end
               else voice in
  let fmt := match response_format with Some ((_ :: _) as f) => f | _ => s2z "mp3" end in
  if truthy_opt output_file then provider_synthesize output_file
  else if cache then
    let '(cache_id, cache_path) := generate_cache_path CACHE_DIR fmt (draw E) in
    _ <- provider_synthesize (Some cache_path) ;;
    _ <- run_proc [s2z "afplay"; cache_path] (afplay E) ;;
    save_metadata CACHE_DIR (now_iso E) cache_id text voice fmt (class_name P) instructions
  else provider_synthesize None.

End TTSService.
End Service.

(** ** What one eviction pass removes *)
Module Evict.
Section Removal.
Variable CACHE_DIR : path.

(** The path the loop body of [_cleanup_old_files] unlinks as the audio
    file of [old_file] (when it exists): the record loads to a truthy dict
    whose ["audio_file"] is a string. *)
Definition audio_target (w : world) (old_file : path) : option path :=
  match load_metadata w old_file with
  | Some (JObj kv) =>
      if truthy (JObj kv) then
        match obj_get (s2z "audio_file") kv with
        | Some (JStr s) => Some (os_resolve (pjoin CACHE_DIR s))
        | _ => None
        end
      else None
  | _ => None
  end.

(** A record the loop body goes through without raising: a regular file
    whose content does not load, loads to a falsy value, or loads to a dict
    naming its audio file by a string; that audio file is no folder and no
    [*.json] entry of the cache directory. *)
Definition evictable (w : world) (old_file : path) : bool :=
  match lookup w old_file with Some (RegFile _ _) => true | _ => false end &&
  match load_metadata w old_file with
  | Some md =>
      negb (truthy md) ||
      match md with
      | JObj kv =>
          match obj_get (s2z "audio_file") kv with
          | Some (JStr s) =>
              let a := pjoin CACHE_DIR s in
              negb (glob_match CACHE_DIR (os_resolve a)) &&
              match lookup w a with Some (Folder _) => false | _ => true end
          | _ => false
          end
      | _ => false
      end
  | None => true
  end.

(** The world after the resolved paths [R] have been unlinked, in order. *)
Definition removed (w : world) (R : list path) : world :=
  mkWorld (filter (fun e => negb (existsb (path_eqb (fst e)) R)) (files w))
          (log w ++ map EUnlink R) (clock w).

(** The paths the loop body unlinks for [old_file] once [R] are gone. *)
Definition removals (w : world) (R : list path) (old_file : path) : list path :=
  match audio_target w old_file with
  | Some a => if existsb (path_eqb a) R then []
              else match lookup w a with Some _ => [a] | None => [] end
  | None => []
  end ++ [old_file].

(** The paths the whole loop unlinks over [l], once [R] are gone. *)
Fixpoint evict_removals (w : world) (R : list path) (l : list path) : list path :=
  match l with
  | [] => []
  | p :: l' => let r := removals w R p in r ++ evict_removals w (R ++ r) l'
  end.

End Removal.

(** No path twice. *)
Fixpoint nodup_paths (l : list path) : bool :=
  match l with
  | [] => true
  | p :: l' => negb (existsb (path_eqb p) l') && nodup_paths l'
  end.

End Evict.
Import Evict.

(** ** [str] helpers shared by the [say] provider and the command line *)
Module PyText.

(** [str.isspace()] for one code point: the characters of bidirectional
    type WS, B or S or of category Zs. *)
Definition py_isspace (c : Z) : bool :=
  ((9 <=? c) && (c <=? 13)) || ((28 <=? c) && (c <=? 32)) || (c =? 133) || (c =? 160)
  || (c =? 5760) || ((8192 <=? c) && (c <=? 8202)) || (c =? 8232) || (c =? 8233)
  || (c =? 8239) || (c =? 8287) || (c =? 12288).

Fixpoint lstrip (s : pystr) : pystr :=
  match s with
  | [] => []
  | c :: r => if py_isspace c then lstrip r else s
  end.

Definition rstrip (s : pystr) : pystr := rev (lstrip (rev s)).

(** [s.strip()] *)
Definition strip (s : pystr) : pystr := rstrip (lstrip s).

(** [s.replace("\r\n", "\n")] *)
Fixpoint crlf_to_lf (s : pystr) : pystr :=
  match s with
  | [] => []
  | c :: r =>
      if c =? 13 then
        match r with
        | d :: r' => if d =? 10 then 10 :: crlf_to_lf r' else c :: crlf_to_lf r
        | [] => [c]
        end
      else c :: crlf_to_lf r
  end.

(** The universal-newline translation [subprocess] applies to the output
    of a child run with [text=True]: [data.replace("\r\n", "\n").replace("\r", "\n")]. *)
Definition translate_newlines (s : pystr) : pystr :=
  map (fun c => if c =? 13 then 10 else c) (crlf_to_lf s).

End PyText.
Import PyText.

(** ** [MacOSsayProvider] *)
Module MacOS.

(** How one run of the [say] program ends: it exits with 0 having written
    [stdout], exits with another status having written [stderr], is not
    installed, or is interrupted. *)
Inductive say_outcome :=
| SayOk (stdout : pystr)
| SayFail (stderr : pystr)
| SayNotFound
| SayInterrupt.

Fixpoint rfind_from (c : Z) (s : pystr) (i : nat) (acc : option nat) : option nat :=
  match s with
  | [] => acc
  | x :: r => rfind_from c r (S i) (if x =? c then Some i else acc)
  end.

(** [name.rfind(c)], [None] for [-1]. *)
Definition rfind (c : Z) (s : pystr) : option nat := rfind_from c s 0 None.

(** [Path(s).name] *)
Definition path_name (s : pystr) : pystr := last (comps s) [].

(** [Path(s).suffix] *)
Definition suffix (s : pystr) : pystr :=
  let name := path_name s in
  match rfind 46 name with
  | Some i => if Nat.ltb 0 i && Nat.ltb i (length name - 1) then skipn i name else []
  | None => []
  end.

(** [sfx.lower() == ".m4a"]: only ['M'] and ['m'] lower to ['m'], only
    ['A'] and ['a'] to ['a'], and only ['4'] and ['.'] stay ['4'] and ['.']. *)
Definition lower_is_m4a (sfx : pystr) : bool :=
  match sfx with
  | [d; m; f; a] => (d =? 46) && ((m =? 77) || (m =? 109)) && (f =? 52) && ((a =? 65) || (a =? 97))
  | _ => false
  end.

(** The argument list [synthesize] builds. *)
Definition say_cmd (text : pystr) (output_file voice : option pystr) : list pystr :=
  let cmd := [s2z "say"] in
  let cmd := match voice with
             | Some ((_ :: _) as v) => cmd ++ [s2z "-v"; v]
             | _ => cmd
             end in
  let cmd := match output_file with
             | Some ((_ :: _) as f) =>
                 if lower_is_m4a (suffix f) then cmd ++ [s2z "-o"; f] else cmd ++ [s2z "-o"; f]
             | _ => cmd
             end in
  cmd ++ [text].

Definition say_failed_prefix : pystr := s2z "macOS 'say' command failed: ".
Definition say_missing : pystr := s2z "macOS 'say' command not found. This tool only works on macOS.".

(** [MacOSsayProvider.synthesize]: one [subprocess.run(cmd, check=True,
    capture_output=True, text=True)] whose [CalledProcessError] and
    [FileNotFoundError] become [RuntimeError]s.  What the [say] process
    itself writes ([-o] file) is the child's doing, not modelled here. *)
Definition synthesize (o : say_outcome) (text : pystr) (output_file voice : option pystr)
    (instructions response_format : option pystr) : M unit :=
  let cmd := say_cmd text output_file voice in
  _ <- emit (ERun cmd) ;;
  match o with
  | SayOk _ => ret tt
  | SayFail err => throw (RuntimeError (say_failed_prefix ++ translate_newlines err))
  | SayNotFound => throw (RuntimeError say_missing)
  | SayInterrupt => throw KeyboardInterrupt
  end.

(** [MacOSsayProvider.list_voices] *)
Definition list_voices (o : say_outcome) : M (list pystr) :=
  _ <- emit (ERun [s2z "say"; s2z "-v"; s2z "?"]) ;;
  match o with
  | SayOk out =>
      ret (flat_map (fun line => match strip line with [] => [] | l => [l] end)
                    (split_on 10 (strip (translate_newlines out))))
  | SayFail _ | SayNotFound => ret []
  | SayInterrupt => throw KeyboardInterrupt
  end.

End MacOS.

(** ** The command-line layer: output on [sys.stderr], [_select_provider],
    [command_exists] and [play_cached] *)
Module Cli.

(** The exceptions of [exn], and [AttributeError] ([item['text'].replace]
    on a value that is not a [str]). *)
Inductive cexn := PyExn (e : exn) | AttributeError.

Inductive cres (A : Type) := COk (a : A) | CErr (e : cexn).
Arguments COk {A}. Arguments CErr {A}.

(** The system and the lines printed on [sys.stderr]. *)
Record cli := mkCli { sys : world; err : list pystr }.

Definition C (A : Type) := cli -> cli * cres A.

Definition cret {A} (a : A) : C A := fun s => (s, COk a).
Definition cthrow {A} (e : cexn) : C A := fun s => (s, CErr e).
Definition cbind {A B} (m : C A) (k : A -> C B) : C B :=
  fun s => match m s with (s', COk a) => k a s' | (s', CErr e) => (s', CErr e) end.
Definition cgets {A} (f : world -> A) : C A := fun s => (s, COk (f (sys s))).

Notation "x <~ m ;; k" := (cbind m (fun x => k)) (at level 61, m at next level, right associativity).

(** A step of the system model. *)
Definition lift {A} (m : M A) : C A :=
  fun s => match m (sys s) with
           | (w', Ok a) => (mkCli w' (err s), COk a)
           | (w', Err e) => (mkCli w' (err s), CErr (PyExn e))
           end.

(** [print(line, file=sys.stderr)] *)
Definition print_err (line : pystr) : C unit :=
  fun s => (mkCli (sys s) (err s ++ [line]), COk tt).

(** How the test call [openai.OpenAI().models.list()] of
    [_select_provider] (with the construction of the provider) ends. *)
Inductive key_test := KeyOk | KeyFail | KeyInterrupt.

Definition msg_openai : pystr :=
  s2z "Using OpenAI TTS (voices: " ++ join (s2z ", ") OpenAI.VOICES ++ s2z ")".
Definition msg_invalid_key : pystr := s2z "OpenAI API key found but invalid, falling back to macOS 'say'".
Definition msg_macos : pystr := s2z "Using macOS 'say' command".

(** [TTSService._select_provider]; [api_key] is [os.getenv("OPENAI_API_KEY")].
    [except Exception] lets a [KeyboardInterrupt] through. *)
Definition select_provider (api_key : option pystr) (t : key_test) : C Service.provider :=
  if truthy_opt api_key then
    match t with
    | KeyOk => _ <~ print_err msg_openai ;; cret Service.openai_provider
    | KeyFail => _ <~ print_err msg_invalid_key ;; _ <~ print_err msg_macos ;; cret Service.macos_provider
    | KeyInterrupt => cthrow (PyExn KeyboardInterrupt)
    end
  else _ <~ print_err msg_macos ;; cret Service.macos_provider.

(** [command_exists(cmd)]: [subprocess.run(['which', cmd], capture_output=True).returncode == 0];
    without [check=True] only a missing [which] or an interrupt raises. *)
Definition command_exists (cmd : pystr) (o : proc) : C bool :=
  lift (_ <- emit (ERun [s2z "which"; cmd]) ;;
        match o with
        | PExit0 => ret true
        | PExitNonzero => ret false
        | PNotFound => throw FileNotFoundError
        | PInterrupt => throw KeyboardInterrupt
        end).

(** How the [fzf] process ends: its exit status and what it printed, an
    [OSError] from [Popen], or an interrupt. *)
Inductive fzf_outcome := FzfExit (rc : Z) (stdout : pystr) | FzfOSError | FzfInterrupt.

Definition rbind {A B} (r : cres A) (k : A -> cres B) : cres B :=
  match r with COk a => k a | CErr e => CErr e end.

Notation "'let*' x ':=' r 'in' k" := (rbind r (fun x => k)) (at level 200, x name, k at level 200).

(** [item[k]] on a value of [list_cached], as [getitem]. *)
Definition item_get (v : json) (k : pystr) : cres json :=
  match v with
  | JObj kv => match obj_get k kv with Some x => COk x | None => CErr (PyExn (KeyError k)) end
  | _ => CErr (PyExn TypeError)
  end.

Definition fzf_cmd : list pystr :=
  [s2z "fzf"; s2z "-d"; [9]; s2z "--with-nth=2"; s2z "--preview";
   s2j "jq -r '.text' ~/.osay/audios/'$(echo {} | cut -f1)'.json 2>/dev/null";
   s2z "--preview-window"; s2z "up:3:wrap"].

Definition msg_no_fzf : pystr := s2z "Error: fzf is not installed. Install it or provide a cache ID.".
Definition msg_install : pystr := s2z "Install: brew install fzf".
Definition msg_empty : pystr := s2z "No cached audio files found.".

Section PlayCached.
Variable CACHE_DIR : path.
(** [str(v)] of a JSON value that is not a string (its Python [repr]). *)
Variable py_str : json -> pystr.
(** [datetime.fromisoformat(s).strftime('%Y-%m-%d %H:%M')]: the text, or
    the [ValueError] raised on a string that is not an ISO date. *)
Variable iso_minute : pystr -> result pystr.

(** [f"{v}"] *)
Definition fstr (v : json) : pystr := match v with JStr s => s | _ => py_str v end.

(** The [fzf] input line [play_cached] builds for one cached item. *)
Definition fzf_line (item : json) : cres pystr :=
  let* ts := item_get item (s2z "timestamp") in
  let* time_str := match ts with
                   | JStr s => match iso_minute s with Ok t => COk t | Err e => CErr (PyExn e) end
                   | _ => CErr (PyExn TypeError)
                   end in
  let* v := item_get item (s2z "voice") in
  let voice := if truthy v then fstr v else s2z "default" in
  let* t := item_get item (s2z "text") in
  let* text := match t with
               | JStr s => COk (map (fun c => if c =? 10 then 32 else c) s)
               | _ => CErr AttributeError
               end in
  let text := if Nat.ltb 128 (length text) then firstn 125 text ++ s2z "..." else text in
  let* id := item_get item (s2z "id") in
  COk (fstr id ++ [9] ++ time_str ++ s2z " - " ++ voice ++ s2z " - " ++ text).

Fixpoint fzf_lines (items : list json) : cres (list pystr) :=
  match items with
  | [] => COk []
  | it :: r => let* l := fzf_line it in let* ls := fzf_lines r in COk (l :: ls)
  end.

(** The [if not cache_id:] branch: the id picked with [fzf], or [None]
    when [play_cached] returns early.  [fzf] is the run of the process on
    the input text it is given. *)
Definition select_with_fzf (which_out : proc) (fzf : pystr -> fzf_outcome) : C (option pystr) :=
  ex <~ command_exists (s2z "fzf") which_out ;;
  if negb ex then _ <~ print_err msg_no_fzf ;; _ <~ print_err msg_install ;; cret None
  else
    items <~ cgets (list_cached CACHE_DIR) ;;
    match items with
    | [] => _ <~ print_err msg_empty ;; cret None
    | _ =>
        match fzf_lines items with
        | CErr e => cthrow e
        | COk lines =>
            _ <~ lift (emit (ERun fzf_cmd)) ;;
            match fzf (join [10] lines) with
            | FzfOSError => cret None
            | FzfInterrupt => cthrow (PyExn KeyboardInterrupt)
            | FzfExit rc out =>
                if negb (rc =? 0) then cret None
                else match strip (translate_newlines out) with
                     | [] => cret None
                     | selected => cret (Some (hd [] (split_on 9 selected)))
                     end
            end
        end
    end.

(** The end of [play_cached]: [self.cache.play(cache_id)] and its report. *)
Definition play_selected (afplay : proc) (cache_id : pystr) : C unit :=
  ok <~ lift (play CACHE_DIR afplay cache_id) ;;
  if ok then print_err (s2z "Playing cached audio: " ++ cache_id)
  else print_err (s2z "Error: Could not play cached audio: " ++ cache_id).

(** [TTSService.play_cached(cache_id)] *)
Definition play_cached (which_out : proc) (fzf : pystr -> fzf_outcome) (afplay : proc)
    (cache_id : option pystr) : C unit :=
  sel <~ match cache_id with
         | Some ((_ :: _) as id) => cret (Some id)
         | _ => select_with_fzf which_out fzf
         end ;;
  match sel with
  | None => cret tt
  | Some id => play_selected afplay id
  end.

End PlayCached.
End Cli.

(** ** Predicates used in the statements about the code *)
Module Preds.

(** A line [list_voices] can return: non-empty, stripped at both ends, and
    holding no line break. *)
Definition voice_line (v : pystr) : Prop :=
  v <> [] /\ py_isspace (hd 0 v) = false /\ py_isspace (last v 0) = false /\ ~ In 10 v /\ ~ In 13 v.

(** A segment of the effect log with no child process started. *)
Definition no_run (L : list event) : Prop := Forall (fun ev => match ev with ERun _ => False | _ => True end) L.

End Preds.
Import Preds.

(** ** Concrete inputs used by the witnesses and counterexamples *)
Module Inputs.

Definition CD0 : path := map s2z ["home"%string; "user"%string; ".osay"%string; "audios"%string].
Definition cwd0 : path := map s2z ["home"%string; "user"%string].

(** What [save_metadata] writes for an entry [id] with format [mp3]. *)
Definition rec_text (id : string) : pystr :=
  dump_flat (metadata_record (s2z id) (s2z "2026-10-16T09:00:00.000000") (s2z "hello")
                             (Some (s2z "onyx")) (s2z "mp3") (s2z "OpenAITTSProvider") None).

(** A cache holding one good entry [abc] (metadata and audio) and a record
    [k.json] that is a JSON dict without ["audio_file"]. *)
Definition w_play : world :=
  mkWorld [(CD0, Folder 0);
           (CD0 ++ [s2z "abc.json"], RegFile 1 (rec_text "abc"));
           (CD0 ++ [s2z "abc.mp3"], RegFile 1 (s2z "ID3"));
           (CD0 ++ [s2z "k.json"], RegFile 2 (s2j "{'id': 'k'}"))] [] 3.

Definition tmp0 : path := map s2z ["tmp"%string; "tmpq1w2e3r4.mp3"%string].

(** The download of the audio breaks after a few bytes. *)
Definition env_broken : OpenAI.env :=
  OpenAI.mkEnv OpenAI.ApiOk (OpenAI.StreamBroken (s2z "ID3")) tmp0 PExit0 PExit0.

Definition w_tmp : world := mkWorld [([s2z "tmp"], Folder 0)] [] 1.

(** The cache of [w_play] with one more record, [bad.json], whose
    content is not JSON. *)
Definition w_bad : world :=
  mkWorld (files w_play ++ [(CD0 ++ [s2z "bad.json"], RegFile 4 (s2z "{"))]) [] 5.

(** A provider that writes its target and succeeds; [afplay] succeeds. *)
Definition env5 : Service.env :=
  Service.mkEnv (Service.mkOutcome (Some (s2z "ID3")) None) PExit0 0 (s2z "2026-10-16T09:00:00").

(** A provider that writes part of the audio and then raises. *)
Definition env10 : Service.env :=
  Service.mkEnv (Service.mkOutcome (Some (s2z "ID3")) (Some APIError)) PExit0 (2 ^ 100 + 7)
                (s2z "2026-10-16T09:00:00").

(** Entry [id] of the cache: its record holding [meta] and its [mp3]
    audio file, both modified at [m]. *)
Definition rec_entry (id : string) (m : Z) (meta : pystr) : list (path * node) :=
  [(CD0 ++ [s2z id ++ s2z ".json"], RegFile m meta); (CD0 ++ [s2z id ++ s2z ".mp3"], RegFile m (s2z "ID3"))].

(** Entries [x1] .. [x11], modified at 2 .. 12. *)
Definition newer_entries : list (path * node) :=
  flat_map (fun '(id, m) => rec_entry id m (rec_text id))
    (combine ["x1"; "x2"; "x3"; "x4"; "x5"; "x6"; "x7"; "x8"; "x9"; "x10"; "x11"]%string
             (map Z.of_nat (seq 2 11))).

(** Twelve entries; the oldest, [x0] (modified at 1), has the record [meta]. *)
Definition cache12 (meta : pystr) : world :=
  mkWorld ((CD0, Folder 0) :: rec_entry "x0" 1 meta ++ newer_entries) [] 20.

(** Every record as [save_metadata] writes it. *)
Definition w_full : world := cache12 (rec_text "x0").

(** The oldest record names the newest record as its audio file. *)
Definition w_alias : world := cache12 (s2j "{'audio_file': 'x11.json'}").

(** The oldest record was cut short while being written. *)
Definition w_trunc : world := cache12 (s2z "{").

(** Two lines of the voice list [say -v '?'] prints. *)
Definition voices2 : list pystr := [s2z "Alex"; s2z "Samantha    en_US    # Hello, my name is Samantha."].

(** [datetime.fromisoformat(ts).strftime('%Y-%m-%d %H:%M')] on the
    timestamps of the records above, which all have the shape
    [YYYY-MM-DDTHH:MM:SS.ffffff]. *)
Definition iso_minute0 (ts : pystr) : result pystr :=
  Ok (map (fun c => if c =? 84 then 32 else c) (firstn 16 ts)).

(** [str(v)] of a non-string JSON value; no record above has one where
    [play_cached] formats it. *)
Definition py_str0 (v : json) : pystr := [].

(** The user picks the first line offered by [fzf]. *)
Definition fzf_first (input : pystr) : Cli.fzf_outcome := Cli.FzfExit 0 (hd [] (split_on 10 input) ++ [10]).

(** The lines [play_cached] offers to [fzf] for the cache of [w_full]. *)
Definition lines_full : list pystr :=
  match Cli.fzf_lines py_str0 iso_minute0 (list_cached CD0 w_full) with Cli.COk l => l | Cli.CErr _ => [] end.

(** A completed download; [ffplay] is not installed. *)
Definition env_opus : OpenAI.env :=
  OpenAI.mkEnv OpenAI.ApiOk (OpenAI.StreamOk (s2z "OggS")) tmp0 PExit0 PNotFound.

End Inputs.
Import Inputs.

(** * Proofs *)

(** ** General facts about the embedding *)
Module Facts.

Lemma pystr_eqb_eq a b : eqb a b = true <-> a = b.
Proof. unfold eqb; destruct (list_eq_dec Z.eq_dec a b); split; congruence. Qed.

Lemma pystr_eqb_refl a : eqb a a = true.
Proof. apply pystr_eqb_eq; reflexivity. Qed.

Lemma path_eqb_eq p q : path_eqb p q = true <-> p = q.
Proof. unfold path_eqb; destruct (list_eq_dec (list_eq_dec Z.eq_dec) p q); split; congruence. Qed.

Example loads_ex1 :
  loads (s2j "{'a': [1, 2.5e1, null], 'b': 'x\u00e9\ud83d\ude00'}") =
  Some (JObj [(s2z "a", JArr [JInt 1; JFloat 25 0; JNull]); (s2z "b", JStr [120; 233; 128512])]).
Proof. vm_compute. reflexivity. Qed.

(** *** Hex digits and [uuid4] ids *)

Lemma hexpad_length w n : length (hexpad w n) = w.
Proof. revert n; induction w; intros; simpl; [reflexivity|]. rewrite length_app, IHw; simpl; lia. Qed.

Lemma hexd_inj a b : 0 <= a < 16 -> 0 <= b < 16 -> hexd a = hexd b -> a = b.
Proof. unfold hexd; intros; destruct (a <? 10) eqn:?, (b <? 10) eqn:?; rewrite ?Z.ltb_lt, ?Z.ltb_ge in *; lia. Qed.

Lemma Zmod_mul_r a b c : 0 < b -> 0 < c -> a mod (b * c) = a mod b + b * ((a / b) mod c).
Proof.
  intros Hb Hc. symmetry. apply (Z.mod_unique _ _ (a / b / c)).
  - pose proof (Z.mod_pos_bound a b Hb); pose proof (Z.mod_pos_bound (a / b) c Hc); left; nia.
  - rewrite (Z.div_mod a b) at 1 by lia. rewrite (Z.div_mod (a / b) c) at 1 by lia. ring.
Qed.

Lemma hexpad_inj w a b : hexpad w a = hexpad w b -> a mod 16 ^ Z.of_nat w = b mod 16 ^ Z.of_nat w.
Proof.
  revert a b; induction w; intros a b H.
  - simpl; rewrite !Z.mod_1_r; reflexivity.
  - simpl in H. apply app_inj_tail in H as [H1 H2].
    apply IHw in H1. apply hexd_inj in H2; try (apply Z.mod_pos_bound; lia).
    rewrite Nat2Z.inj_succ, Z.pow_succ_r by lia.
    rewrite !Zmod_mul_r by (try apply Z.pow_pos_nonneg; lia).
    rewrite H1, H2; reflexivity.
Qed.

Lemma hexpad_firstn k m n : firstn k (hexpad (k + m) n) = hexpad k (n / 16 ^ Z.of_nat m).
Proof.
  revert n; induction m; intros n.
  - rewrite Nat.add_0_r, Z.pow_0_r, Z.div_1_r, <- (hexpad_length k n) at 1. apply firstn_all.
  - rewrite Nat2Z.inj_succ, Z.pow_succ_r by lia. rewrite Nat.add_succ_r; cbn [hexpad]. rewrite firstn_app, hexpad_length.
    replace (k - (k + m))%nat with O by lia. cbn [firstn].
    rewrite app_nil_r, IHm, Z.div_div by (try apply Z.pow_pos_nonneg; lia).
    rewrite Z.mul_comm. reflexivity.
Qed.

Lemma hexpad_digits w n : Forall (fun c => (48 <= c <= 57) \/ (97 <= c <= 102)) (hexpad w n).
Proof.
  revert n; induction w; intros; simpl; [constructor|]. apply Forall_app; split; [apply IHw|].
  constructor; [|constructor]. unfold hexd. pose proof (Z.mod_pos_bound n 16).
  destruct (n mod 16 <? 10) eqn:E; rewrite ?Z.ltb_lt, ?Z.ltb_ge in E; lia.
Qed.

Lemma uuid4_int_high r : 0 <= r -> uuid4_int r / 2 ^ 96 = r / 2 ^ 96.
Proof.
  intros Hr. rewrite <- !Z.shiftr_div_pow2 by lia. apply Z.bits_inj'. intros n Hn.
  rewrite !Z.shiftr_spec by lia. unfold uuid4_int.
  repeat (rewrite ?Z.lor_spec, ?Z.land_spec, ?Z.lnot_spec, ?Z.shiftl_spec by lia).
  rewrite (Z.bits_above_log2 49152), (Z.bits_above_log2 32768), (Z.bits_above_log2 61440),
    (Z.bits_above_log2 4) by (cbn; lia).
  simpl. rewrite ?orb_false_r, ?andb_true_r. reflexivity.
Qed.

Lemma Zmod_small_eq a b m : 0 <= a < m -> 0 <= b < m -> a mod m = b mod m -> a = b.
Proof. intros Ha Hb H. rewrite !Z.mod_small in H by lia. exact H. Qed.

Lemma cache_id_eq r : 0 <= r < 2 ^ 128 ->
  firstn 8 (uuid_str (uuid4_int r)) = hexpad 8 (r / 2 ^ 96).
Proof.
  intros Hr. unfold uuid_str. rewrite firstn_app, firstn_firstn, length_firstn, hexpad_length.
  replace (Nat.min 8 8) with 8%nat by reflexivity. replace (8 - Nat.min 8 32)%nat with O by reflexivity.
  rewrite firstn_O, app_nil_r.
  replace 32%nat with (8 + 24)%nat by reflexivity. rewrite hexpad_firstn.
  replace (16 ^ Z.of_nat 24) with (2 ^ 96) by reflexivity. rewrite uuid4_int_high by lia. reflexivity.
Qed.

Lemma split_on_none c s : ~ In c s -> split_on c s = [s].
Proof.
  induction s as [|x s IH]; intros H; [reflexivity|]. simpl.
  destruct (x =? c) eqn:E; [apply Z.eqb_eq in E; subst; exfalso; apply H; left; reflexivity|].
  rewrite IH by (intro; apply H; right; assumption). reflexivity.
Qed.

Lemma map_NoDup_iff {A B C} (f : A -> B) (g : A -> C) (l : list A) :
  (forall x y, In x l -> In y l -> (f x = f y <-> g x = g y)) ->
  (NoDup (map f l) <-> NoDup (map g l)).
Proof.
  induction l as [|a l IH]; intros H; simpl; [split; constructor|].
  rewrite !NoDup_cons_iff, IH by (intros; apply H; right; assumption).
  assert (In (f a) (map f l) <-> In (g a) (map g l)).
  { rewrite !in_map_iff. split; intros [x [Hx Hin]]; exists x; (split; [|exact Hin]);
      apply (H x a); [right; exact Hin | left; reflexivity | exact Hx | right; exact Hin | left; reflexivity | exact Hx]. }
  tauto.
Qed.

Lemma NoDup_bounded (l : list Z) (m : Z) : 0 <= m -> Forall (fun x => 0 <= x < m) l -> NoDup l ->
  Z.of_nat (length l) <= m.
Proof.
  intros Hm Hl Hnd.
  assert (Hincl : incl l (map Z.of_nat (seq 0 (Z.to_nat m)))).
  { intros x Hx. rewrite Forall_forall in Hl. specialize (Hl x Hx).
    apply in_map_iff. exists (Z.to_nat x). split; [lia|]. apply in_seq. lia. }
  pose proof (NoDup_incl_length Hnd Hincl) as Hlen. rewrite length_map, length_seq in Hlen. lia.
Qed.

(** *** Paths and the sorting of [glob] results *)

Lemma pjoin_name (base : path) (s : pystr) :
  ~ In 47 s -> s <> [] -> s <> [46] -> pjoin base s = base ++ [s].
Proof.
  intros H1 H2 H3. unfold pjoin, is_abs, comps.
  destruct s as [|c s']; [congruence|].
  replace (c =? 47) with false by (symmetry; apply Z.eqb_neq; intros ->; apply H1; left; reflexivity).
  rewrite split_on_none by exact H1. simpl filter.
  destruct (eqb (c :: s') []) eqn:E1; [apply pystr_eqb_eq in E1; congruence|].
  destruct (eqb (c :: s') [46]) eqn:E2; [apply pystr_eqb_eq in E2; congruence|].
  reflexivity.
Qed.

Section Sorting.
Context {A : Type} (k : A -> Z).

Lemma ins_desc_perm x l : Permutation (ins_desc k x l) (x :: l).
Proof.
  induction l as [|y l IH]; simpl; [reflexivity|].
  destruct (k y <? k x); [reflexivity|].
  rewrite IH. apply perm_swap.
Qed.

Lemma sort_desc_perm_acc l acc :
  Permutation (fold_left (fun acc x => ins_desc k x acc) l acc) (l ++ acc).
Proof.
  revert acc; induction l as [|x l IH]; intros acc; simpl; [reflexivity|].
  rewrite IH, ins_desc_perm. apply Permutation_sym, Permutation_middle.
Qed.

Lemma sort_desc_perm l : Permutation (sort_desc k l) l.
Proof. unfold sort_desc. rewrite sort_desc_perm_acc, app_nil_r. reflexivity. Qed.

Let R (a b : A) : Prop := k b <= k a.

Lemma ins_desc_hd y x l : HdRel R y l -> R y x -> HdRel R y (ins_desc k x l).
Proof.
  intros H Hyx. destruct l as [|z l]; simpl; [constructor; exact Hyx|].
  destruct (k z <? k x); constructor; [exact Hyx|]. inversion H; assumption.
Qed.

Lemma ins_desc_sorted x l : Sorted R l -> Sorted R (ins_desc k x l).
Proof.
  induction l as [|y l IH]; intros H; simpl; [repeat constructor|].
  destruct (k y <? k x) eqn:E.
  - constructor; [exact H|]. constructor. unfold R. apply Z.ltb_lt in E. lia.
  - apply Sorted_inv in H as [Hl Hhd]. constructor; [apply IH, Hl|].
    apply ins_desc_hd; [exact Hhd|]. unfold R. apply Z.ltb_ge in E. lia.
Qed.

Lemma sort_desc_sorted l : StronglySorted R (sort_desc k l).
Proof.
  apply Sorted_StronglySorted; [unfold Relations_1.Transitive, R; intros; lia|].
  unfold sort_desc. assert (H : Sorted R []) by constructor. revert H. generalize (@nil A).
  induction l as [|x l IH]; intros acc H; simpl; [exact H|]. apply IH, ins_desc_sorted, H.
Qed.

End Sorting.

(** *** Paths, lookups and the listing after a file operation *)

Lemma os_resolve_fold p acc : no_dotdot p = true ->
  fold_left (fun st c => if eqb c [46; 46] then tl st else c :: st) p acc = rev p ++ acc.
Proof.
  revert acc; induction p as [|c p IH]; intros acc H; [reflexivity|].
  simpl in H |- *. apply andb_prop in H as [Hc Hp]. apply negb_true_iff in Hc. rewrite Hc, IH by exact Hp.
  rewrite <- app_assoc. reflexivity.
Qed.

Lemma os_resolve_id p : no_dotdot p = true -> os_resolve p = p.
Proof. intros H. unfold os_resolve. rewrite os_resolve_fold, app_nil_r, rev_involutive by exact H. reflexivity. Qed.

Lemma canonical_no_dotdot p : canonical p = true -> no_dotdot p = true.
Proof.
  unfold canonical, no_dotdot. rewrite !forallb_forall. intros H c Hc. specialize (H c Hc).
  apply andb_prop in H as [H _]. apply andb_prop in H as [_ H]. exact H.
Qed.

Lemma split_on_app c x y : ~ In c x -> split_on c (x ++ c :: y) = x :: split_on c y.
Proof.
  induction x as [|a x IH]; intros H; simpl.
  - rewrite Z.eqb_refl. reflexivity.
  - destruct (a =? c) eqn:E; [apply Z.eqb_eq in E; subst; exfalso; apply H; left; reflexivity|].
    rewrite IH by (intro; apply H; right; assumption). reflexivity.
Qed.

Lemma no47 c : existsb (Z.eqb 47) c = false -> ~ In 47 c.
Proof.
  intros H Hin. assert (existsb (Z.eqb 47) c = true) by (apply existsb_exists; exists 47; split; [exact Hin|apply Z.eqb_refl]).
  congruence.
Qed.

Lemma split_on_join p : p <> [] -> Forall (fun x => ~ In 47 x) p -> split_on 47 (join [47] p) = p.
Proof.
  induction p as [|x p IH]; intros Hne H; [congruence|].
  inversion H as [|? ? Hx Hp]; subst. destruct p as [|y p'].
  - simpl. apply split_on_none, Hx.
  - change (join [47] (x :: y :: p')) with (x ++ 47 :: join [47] (y :: p')).
    rewrite split_on_app by exact Hx. rewrite IH by (discriminate || exact Hp). reflexivity.
Qed.

Lemma comps_pstr p : canonical p = true -> comps (pstr p) = p.
Proof.
  intros H. unfold comps, pstr. simpl split_on. rewrite ?Z.eqb_refl. simpl filter.
  unfold canonical in H. rewrite forallb_forall in H.
  destruct p as [|x p]; [reflexivity|].
  rewrite split_on_join.
  - apply forallb_filter_id. apply forallb_forall. intros c Hc. specialize (H c Hc).
    apply andb_prop in H as [H _]. apply andb_prop in H as [H _]. apply andb_prop in H as [H1 H2].
    apply negb_true_iff in H1, H2. rewrite H1, H2. reflexivity.
  - discriminate.
  - apply Forall_forall. intros c Hc. specialize (H c Hc). apply andb_prop in H as [_ H].
    apply no47. apply negb_true_iff, H.
Qed.

Lemma pjoin_pstr base p : canonical p = true -> pjoin base (pstr p) = p.
Proof. intros H. unfold pjoin. simpl. apply comps_pstr, H. Qed.

(** Lookups after the file operations. *)
Lemma find_upsert_key q n fs : forall p, path_eqb q p = false ->
  find (fun e => path_eqb (fst e) p) (upsert q n fs) = find (fun e => path_eqb (fst e) p) fs.
Proof.
  intros p Hq. induction fs as [|e fs IH]; simpl.
  - rewrite Hq. reflexivity.
  - destruct (path_eqb (fst e) q) eqn:E; simpl.
    + apply path_eqb_eq in E. rewrite E, Hq. reflexivity.
    + rewrite IH. reflexivity.
Qed.

Lemma lookup_upsert (w : world) q n l c p :
  lookup (mkWorld (upsert q n (files w)) l c) p
  = if path_eqb q (os_resolve p) then Some n else lookup w p.
Proof.
  unfold lookup; simpl. destruct (path_eqb q (os_resolve p)) eqn:E.
  - apply path_eqb_eq in E. subst q. induction (files w) as [|e fs IH]; simpl.
    + rewrite (proj2 (path_eqb_eq _ _) eq_refl). reflexivity.
    + destruct (path_eqb (fst e) (os_resolve p)) eqn:E2; simpl.
      * rewrite (proj2 (path_eqb_eq _ _) eq_refl). reflexivity.
      * rewrite E2. exact IH.
  - rewrite find_upsert_key by exact E. reflexivity.
Qed.

Lemma lookup_remove (w : world) q l c p :
  lookup (mkWorld (remove_entry q (files w)) l c) p
  = if path_eqb q (os_resolve p) then None else lookup w p.
Proof.
  unfold lookup, remove_entry; simpl. destruct (path_eqb q (os_resolve p)) eqn:E.
  - apply path_eqb_eq in E. subst q. induction (files w) as [|e fs IH]; simpl; [reflexivity|].
    destruct (path_eqb (fst e) (os_resolve p)) eqn:E2; simpl; [exact IH|]. rewrite E2. exact IH.
  - induction (files w) as [|e fs IH]; simpl; [reflexivity|].
    destruct (path_eqb (fst e) q) eqn:E2; simpl.
    + apply path_eqb_eq in E2. rewrite E2, E. exact IH.
    + destruct (path_eqb (fst e) (os_resolve p)); [reflexivity|exact IH].
Qed.

Lemma lookup_files (w w' : world) p : files w' = files w -> lookup w' p = lookup w p.
Proof. intros H. unfold lookup. rewrite H. reflexivity. Qed.

Section Glob.
Variable CACHE_DIR : path.

Lemma glob_json_upsert (w : world) q n l c :
  glob_match CACHE_DIR q = false ->
  glob_json CACHE_DIR (mkWorld (upsert q n (files w)) l c) = glob_json CACHE_DIR w.
Proof.
  intros Hq. unfold glob_json; simpl. induction (files w) as [|e fs IH]; simpl.
  - rewrite Hq. reflexivity.
  - destruct (path_eqb (fst e) q) eqn:E; simpl.
    + apply path_eqb_eq in E. rewrite Hq, E, Hq. reflexivity.
    + destruct (glob_match CACHE_DIR (fst e)); simpl; rewrite IH; reflexivity.
Qed.

Lemma glob_json_match (w : world) p : In p (glob_json CACHE_DIR w) -> glob_match CACHE_DIR p = true.
Proof.
  unfold glob_json. intros H. apply in_map_iff in H as [e [<- He]]. apply filter_In in He as [_ He]. exact He.
Qed.

Lemma glob_match_shape p : glob_match CACHE_DIR p = true ->
  exists n, p = CACHE_DIR ++ [n] /\ ends_with (s2z ".json") n = true.
Proof.
  unfold glob_match. destruct (path_eqb (firstn (length CACHE_DIR) p) CACHE_DIR) eqn:E; [|discriminate].
  apply path_eqb_eq in E. destruct (skipn (length CACHE_DIR) p) as [|n [|]] eqn:S; try discriminate.
  intros H. exists n. split; [|exact H]. rewrite <- (firstn_skipn (length CACHE_DIR) p), E, S. reflexivity.
Qed.

Lemma glob_no_dotdot p : no_dotdot CACHE_DIR = true -> glob_match CACHE_DIR p = true -> no_dotdot p = true.
Proof.
  intros Hc H. apply glob_match_shape in H as [n [-> Hn]]. unfold no_dotdot in *.
  rewrite forallb_app, Hc. simpl. destruct (eqb n [46; 46]) eqn:E; [|reflexivity].
  apply pystr_eqb_eq in E. subst n. discriminate.
Qed.

Section Ext.
Context {A : Type}.

Lemma ins_desc_ext (k1 k2 : A -> Z) x l : (forall y, In y (x :: l) -> k1 y = k2 y) ->
  ins_desc k1 x l = ins_desc k2 x l.
Proof.
  induction l as [|y l IH]; intros H; simpl; [reflexivity|].
  rewrite (H x), (H y) by (simpl; auto). destruct (k2 y <? k2 x); [reflexivity|].
  rewrite IH; [reflexivity|]. intros z [Hz|Hz]; apply H; simpl; auto.
Qed.

Lemma sort_desc_ext (k1 k2 : A -> Z) l : (forall y, In y l -> k1 y = k2 y) -> sort_desc k1 l = sort_desc k2 l.
Proof.
  intros H. unfold sort_desc.
  assert (Hacc : forall y, In y (@nil A) -> k1 y = k2 y) by (intros y []).
  revert Hacc. generalize (@nil A). induction l as [|x l IH]; intros acc Hacc; simpl; [reflexivity|].
  rewrite (ins_desc_ext k1 k2).
  - apply IH; [intros; apply H; right; assumption|].
    intros y Hy. apply (Permutation_in _ (ins_desc_perm k2 x acc)) in Hy. destruct Hy as [<-|Hy].
    + apply H; left; reflexivity.
    + apply Hacc, Hy.
  - intros y [<-|Hy]; [apply H; left; reflexivity|apply Hacc, Hy].
Qed.
End Ext.

(** The listing only depends on the glob and on what the globbed paths hold. *)
Lemma listing_frame (w w' : world) :
  glob_json CACHE_DIR w' = glob_json CACHE_DIR w ->
  (forall p, In p (glob_json CACHE_DIR w) -> lookup w' p = lookup w p) ->
  sorted_json CACHE_DIR w' = sorted_json CACHE_DIR w /\ list_cached CACHE_DIR w' = list_cached CACHE_DIR w.
Proof.
  intros Hg Hl.
  assert (Hs : sorted_json CACHE_DIR w' = sorted_json CACHE_DIR w).
  { unfold sorted_json. rewrite Hg. apply sort_desc_ext. intros y Hy. unfold mtime_of. rewrite Hl by exact Hy. reflexivity. }
  split; [exact Hs|]. unfold list_cached. rewrite Hs.
  assert (Hin : forall p, In p (sorted_json CACHE_DIR w) -> In p (glob_json CACHE_DIR w)).
  { intros p Hp. exact (Permutation_in _ (sort_desc_perm _ _) Hp). }
  clear Hs. revert Hin. generalize (sorted_json CACHE_DIR w). intros l Hin.
  induction l as [|p l IH]; simpl; [reflexivity|].
  unfold load_metadata, read_text. rewrite Hl by (apply Hin; left; reflexivity).
  f_equal. fold (read_text w p). apply IH. intros; apply Hin; right; assumption.
Qed.

End Glob.

Lemma frame_upsert CD (w w' : world) q n :
  files w' = upsert q n (files w) -> no_dotdot CD = true -> glob_match CD q = false ->
  glob_json CD w' = glob_json CD w /\ list_cached CD w' = list_cached CD w.
Proof.
  intros Hf Hc Hq. destruct w' as [fs' l' c']; simpl in Hf; subst fs'.
  assert (Hg : glob_json CD (mkWorld (upsert q n (files w)) l' c') = glob_json CD w) by (apply glob_json_upsert, Hq).
  split; [exact Hg|]. apply listing_frame; [exact Hg|].
  intros p Hp. rewrite lookup_upsert. apply glob_json_match in Hp.
  rewrite (os_resolve_id p) by (apply (glob_no_dotdot CD); assumption).
  destruct (path_eqb q p) eqn:E; [|reflexivity]. apply path_eqb_eq in E; subst; congruence.
Qed.

Lemma frame_same CD (w w' : world) : files w' = files w ->
  glob_json CD w' = glob_json CD w /\ list_cached CD w' = list_cached CD w.
Proof.
  intros Hf. assert (Hg : glob_json CD w' = glob_json CD w) by (unfold glob_json; rewrite Hf; reflexivity).
  split; [exact Hg|]. apply listing_frame; [exact Hg|]. intros; apply lookup_files, Hf.
Qed.

(** What [self.provider.synthesize] does to the world: it logs the call and
    at most writes its (non-empty) target; when it raises, the call fails. *)
Lemma provider_synthesize_effect cwd E target (w : world) :
  let (w', r) := Service.provider_synthesize cwd E target w in
  ((files w' = files w /\ log w' = log w ++ [ESynth target]
    /\ (forall t audio, target = Some t -> t <> [] -> Service.writes (Service.prov E) = Some audio ->
          exists m, lookup w (pjoin cwd t) = Some (Folder m)))
   \/ (exists t audio, target = Some t /\ t <> [] /\ Service.writes (Service.prov E) = Some audio /\
        (forall m, lookup w (pjoin cwd t) <> Some (Folder m)) /\
        files w' = upsert (os_resolve (pjoin cwd t)) (RegFile (clock w) audio) (files w) /\
        log w' = log w ++ [ESynth target; EWrite (os_resolve (pjoin cwd t))]))
  /\ (Service.raises (Service.prov E) <> None -> exists e, r = Err e).
Proof.
  unfold Service.provider_synthesize, bind, emit, ret, throw. cbn [files log clock].
  destruct (Service.raises (Service.prov E)) as [e|] eqn:Hr;
  destruct target as [[|c t]|];
  try (split; [left; split; [reflexivity|split; [reflexivity|intros t0 a0 Ht0 Hne; congruence]]
               | intros H; try congruence; exists e; reflexivity]).
  all: destruct (Service.writes (Service.prov E)) as [audio|] eqn:Hw;
       try (split; [left; split; [reflexivity|split; [reflexivity|intros t0 a0 Ht0 Hne Hw0; congruence]]
                   | intros H; try congruence; exists e; reflexivity]).
  all: unfold write_file; cbn [files log clock].
  all: unfold lookup at 1; cbn [files].
  all: destruct (find (fun e => path_eqb (fst e) (os_resolve (pjoin cwd (c :: t)))) (files w)) as [[k [m d|m]]|] eqn:Hf.
  all: try (split; [left; split; [reflexivity|split; [reflexivity|]]
                   | intros H; try congruence; eexists; reflexivity];
            intros t0 a0 Ht0 Hne Hw0; injection Ht0 as <-; exists m; unfold lookup; rewrite Hf; reflexivity).
  all: split; [right; exists (c :: t), audio; repeat split; try reflexivity; try discriminate;
               [intros m' H; unfold lookup in H; rewrite Hf in H; discriminate | rewrite <- app_assoc; reflexivity]
              | intros H; try congruence; eexists; reflexivity].
Qed.

Lemma firstn_uuid_str x : firstn 8 (uuid_str x) = hexpad 8 (x / 16 ^ 24).
Proof.
  unfold uuid_str. rewrite firstn_app, firstn_firstn, length_firstn, hexpad_length.
  replace (Nat.min 8 8) with 8%nat by reflexivity. replace (8 - Nat.min 8 32)%nat with O by reflexivity.
  rewrite firstn_O, app_nil_r.
  replace 32%nat with (8 + 24)%nat by reflexivity. rewrite hexpad_firstn. reflexivity.
Qed.

Lemma cache_id_shape CD fmt r :
  length (fst (generate_cache_path CD fmt r)) = 8%nat /\ Forall hexdigit (fst (generate_cache_path CD fmt r)).
Proof.
  unfold generate_cache_path; cbn [fst]. rewrite firstn_uuid_str. split; [apply hexpad_length|apply hexpad_digits].
Qed.

Lemma audio_formats_cases fmt : mem fmt OpenAI.AUDIO_FORMATS = true ->
  In fmt OpenAI.AUDIO_FORMATS.
Proof.
  unfold mem. intros H. apply existsb_exists in H as [x [Hx E]]. apply pystr_eqb_eq in E. subst. exact Hx.
Qed.

Lemma hex_no47 id : Forall hexdigit id -> ~ In 47 id.
Proof. intros H Hin. rewrite Forall_forall in H. specialize (H _ Hin). unfold hexdigit in H. lia. Qed.

(** The slot name [<id>.<format>] of a known format. *)
Lemma slot_name_facts (id fmt : pystr) :
  length id = 8%nat -> Forall hexdigit id -> In fmt OpenAI.AUDIO_FORMATS ->
  ~ In 47 (id ++ [46] ++ fmt) /\ id ++ [46] ++ fmt <> [] /\ id ++ [46] ++ fmt <> [46]
  /\ canonical [id ++ [46] ++ fmt] = true /\ ends_with (s2z ".json") (id ++ [46] ++ fmt) = false
  /\ id ++ s2z ".json" <> id ++ [46] ++ fmt.
Proof.
  intros Hl Hd Hf. pose proof (hex_no47 _ Hd) as H47.
  assert (Hf47 : ~ In 47 fmt)
    by (intros Hin; simpl in Hf; destruct Hf as [<-|[<-|[<-|[<-|[<-|[<-|[]]]]]]]; simpl in Hin; lia).
  assert (Hn : ~ In 47 (id ++ [46] ++ fmt)).
  { intros Hin. apply in_app_or in Hin as [Hin|[Hin|Hin]]; [contradiction|discriminate|contradiction]. }
  assert (Hne : id ++ [46] ++ fmt <> []) by (destruct id; discriminate).
  assert (Hlen : Nat.le 9 (length (id ++ [46] ++ fmt))) by (rewrite !length_app; simpl; lia).
  split; [exact Hn|]. split; [exact Hne|]. split.
  { intros E. rewrite E in Hlen. simpl in Hlen. lia. }
  split.
  { unfold canonical, forallb; cbv beta. rewrite andb_true_r.
    destruct (eqb (id ++ [46] ++ fmt) []) eqn:E1; [apply pystr_eqb_eq in E1; contradiction|].
    destruct (eqb (id ++ [46] ++ fmt) [46]) eqn:E2; [apply pystr_eqb_eq in E2; rewrite E2 in Hlen; simpl in Hlen; lia|].
    destruct (eqb (id ++ [46] ++ fmt) [46; 46]) eqn:E3; [apply pystr_eqb_eq in E3; rewrite E3 in Hlen; simpl in Hlen; lia|].
    destruct (existsb (Z.eqb 47) (id ++ [46] ++ fmt)) eqn:E4; [|reflexivity].
    apply existsb_exists in E4 as [x [Hx Ex]]. apply Z.eqb_eq in Ex; subst; contradiction. }
  split.
  { destruct (ends_with (s2z ".json") (id ++ [46] ++ fmt)) eqn:E; [|reflexivity]. exfalso.
    unfold ends_with in E. apply andb_prop in E as [_ E]. apply pystr_eqb_eq in E.
    assert (Hsplit := firstn_skipn (length (id ++ [46] ++ fmt) - length (s2z ".json")) (id ++ [46] ++ fmt)).
    rewrite E in Hsplit. apply (f_equal (@rev Z)) in Hsplit. rewrite !rev_app_distr in Hsplit.
    simpl in Hf; destruct Hf as [<-|[<-|[<-|[<-|[<-|[<-|[]]]]]]]; simpl in Hsplit; discriminate Hsplit. }
  { intros E. apply app_inv_head in E. simpl in Hf; destruct Hf as [<-|[<-|[<-|[<-|[<-|[<-|[]]]]]]]; discriminate E. }
Qed.

Lemma canonical_app p q : canonical (p ++ q) = canonical p && canonical q.
Proof. unfold canonical. apply forallb_app. Qed.

(** *** Eviction: the paths [_cleanup_old_files] unlinks *)

Lemma no_dotdot_fold p acc : no_dotdot acc = true ->
  no_dotdot (fold_left (fun st c => if eqb c [46; 46] then tl st else c :: st) p acc) = true.
Proof.
  revert acc; induction p as [|c p IH]; intros acc H; simpl; [exact H|]. apply IH.
  destruct (eqb c [46; 46]) eqn:E.
  - destruct acc; simpl in *; [reflexivity|]. apply andb_prop in H as [_ H]; exact H.
  - simpl. rewrite E, H. reflexivity.
Qed.

Lemma os_resolve_idem p : os_resolve (os_resolve p) = os_resolve p.
Proof.
  apply os_resolve_id. unfold os_resolve, no_dotdot. apply forallb_forall. intros c Hc.
  apply in_rev in Hc. pose proof (no_dotdot_fold p [] eq_refl) as H. unfold no_dotdot in H.
  rewrite forallb_forall in H. apply H, Hc.
Qed.

Lemma lookup_resolve w p : lookup w (os_resolve p) = lookup w p.
Proof. unfold lookup. rewrite os_resolve_idem. reflexivity. Qed.

Lemma lookup_removed w R p :
  lookup (removed w R) p = if existsb (path_eqb (os_resolve p)) R then None else lookup w p.
Proof.
  unfold lookup, removed; simpl. induction (files w) as [|e fs IH]; simpl.
  - destruct (existsb _ R); reflexivity.
  - destruct (existsb (path_eqb (fst e)) R) eqn:E; simpl.
    + rewrite IH. destruct (path_eqb (fst e) (os_resolve p)) eqn:E2; [|reflexivity].
      apply path_eqb_eq in E2. rewrite <- E2, E. reflexivity.
    + destruct (path_eqb (fst e) (os_resolve p)) eqn:E2; [|exact IH].
      apply path_eqb_eq in E2. rewrite <- E2, E. reflexivity.
Qed.

Lemma removed_nil w : removed w [] = w.
Proof.
  destruct w as [fs l c]. unfold removed; simpl. rewrite app_nil_r. f_equal.
  apply forallb_filter_id, forallb_forall. reflexivity.
Qed.

Lemma unlink_removed w R p m d :
  lookup w p = Some (RegFile m d) -> existsb (path_eqb (os_resolve p)) R = false ->
  unlink p (removed w R) = (removed w (R ++ [os_resolve p]), Ok tt).
Proof.
  intros Hp HR. unfold unlink. rewrite lookup_removed, HR, Hp. unfold removed; simpl. f_equal. f_equal.
  - unfold remove_entry. induction (files w) as [|e fs IH]; simpl; [reflexivity|].
    rewrite existsb_app. simpl. rewrite orb_false_r.
    destruct (existsb (path_eqb (fst e)) R); simpl; [exact IH|].
    destruct (path_eqb (fst e) (os_resolve p)); simpl; [exact IH|]. rewrite IH. reflexivity.
  - rewrite map_app, app_assoc. reflexivity.
Qed.

Lemma glob_removed CD w R :
  glob_json CD (removed w R) = filter (fun p => negb (existsb (path_eqb p) R)) (glob_json CD w).
Proof.
  unfold glob_json, removed; simpl. induction (files w) as [|e fs IH]; simpl; [reflexivity|].
  destruct (existsb (path_eqb (fst e)) R) eqn:E; destruct (glob_match CD (fst e)) eqn:G; simpl;
    rewrite ?G; simpl; rewrite ?E; simpl; rewrite ?IH; reflexivity.
Qed.

Lemma existsb_path_In p R : existsb (path_eqb p) R = true <-> In p R.
Proof.
  rewrite existsb_exists. split.
  - intros [x [Hx E]]. apply path_eqb_eq in E. subst; exact Hx.
  - intros H. exists p. split; [exact H|]. apply path_eqb_eq; reflexivity.
Qed.

Lemma existsb_path_notIn p R : existsb (path_eqb p) R = false <-> ~ In p R.
Proof. rewrite <- existsb_path_In. destruct (existsb (path_eqb p) R); split; congruence || (intros; discriminate || tauto). Qed.

Section EvictOne.
Variable CD : path.

Lemma evictable_file w p : evictable CD w p = true -> exists m d, lookup w p = Some (RegFile m d).
Proof.
  unfold evictable. destruct (lookup w p) as [[m d|]|]; simpl; try discriminate. eauto.
Qed.

Lemma evictable_truthy w p md : evictable CD w p = true -> load_metadata w p = Some md -> truthy md = true ->
  exists kv s, md = JObj kv /\ obj_get (s2z "audio_file") kv = Some (JStr s)
               /\ audio_target CD w p = Some (os_resolve (pjoin CD s)).
Proof.
  unfold evictable, audio_target. intros He Hmd Ht. rewrite Hmd in *. rewrite Ht in He. simpl in He.
  apply andb_prop in He as [_ He].
  destruct md; try discriminate. rewrite Ht. destruct (obj_get (s2z "audio_file") kv) as [[]|] eqn:Ho; try discriminate.
  exists kv, s. auto.
Qed.

Lemma evictable_target w p a : evictable CD w p = true -> audio_target CD w p = Some a ->
  glob_match CD a = false /\ (forall m, lookup w a <> Some (Folder m)).
Proof.
  unfold evictable, audio_target. intros He Ha.
  destruct (load_metadata w p) as [md|]; [|discriminate]. destruct md; try discriminate.
  destruct (truthy (JObj kv)) eqn:Ht; [|discriminate]. simpl in He.
  apply andb_prop in He as [_ He].
  destruct (obj_get (s2z "audio_file") kv) as [[]|]; try discriminate. injection Ha as <-.
  apply andb_prop in He as [H1 H2]. apply negb_true_iff in H1. split; [exact H1|].
  intros m. rewrite lookup_resolve. destruct (lookup w (pjoin CD s)) as [[]|]; congruence.
Qed.

Lemma audio_target_none w p md : load_metadata w p = Some md -> truthy md = false -> audio_target CD w p = None.
Proof. unfold audio_target. intros -> Ht. destruct md; try reflexivity. rewrite Ht. reflexivity. Qed.

Lemma evict_one_removed w R p :
  no_dotdot CD = true -> glob_match CD p = true -> evictable CD w p = true -> ~ In p R ->
  evict_one CD p (removed w R) = (removed w (R ++ removals CD w R p), Ok tt).
Proof.
  intros Hcd Hg He HR.
  assert (Hp : os_resolve p = p) by (apply os_resolve_id, (glob_no_dotdot CD); assumption).
  assert (HRb : existsb (path_eqb p) R = false) by (apply existsb_path_notIn; exact HR).
  destruct (evictable_file _ _ He) as [m [d Hf]].
  assert (Hl : load_metadata (removed w R) p = load_metadata w p).
  { unfold load_metadata, read_text. rewrite lookup_removed, Hp, HRb. reflexivity. }
  assert (Hu : forall R', ~ In p R' -> unlink p (removed w R') = (removed w (R' ++ [p]), Ok tt)).
  { intros R' H'. rewrite (unlink_removed w R' p m d Hf); rewrite Hp; [reflexivity|]. apply existsb_path_notIn, H'. }
  unfold evict_one, bind, gets. rewrite Hl. unfold removals.
  destruct (load_metadata w p) as [md|] eqn:Hmd.
  - destruct (truthy md) eqn:Ht.
    + destruct (evictable_truthy _ _ _ He Hmd Ht) as [kv [s [-> [Hs Ha]]]].
      rewrite Ha. destruct (evictable_target _ _ _ He Ha) as [Hga Hfa].
      set (a := os_resolve (pjoin CD s)) in *.
      assert (Hpa : p <> a) by (intros E; rewrite <- E in Hga; congruence).
      cbn [getitem path_div ret]. rewrite Hs. cbn [ret].
      unfold path_exists.
      cbn [path_div ret]. rewrite lookup_removed. fold a.
      destruct (existsb (path_eqb a) R) eqn:Ea.
      * apply Hu, HR.
      * rewrite <- lookup_resolve. fold a.
        destruct (lookup w a) as [[m' d'|m']|] eqn:La.
        -- rewrite (unlink_removed w R (pjoin CD s) m' d').
           ++ fold a. rewrite Hu, <- app_assoc; [reflexivity|].
              intros Hin. apply in_app_or in Hin as [Hin|[Hin|[]]]; [exact (HR Hin)|exact (Hpa (eq_sym Hin))].
           ++ rewrite <- lookup_resolve. exact La.
           ++ exact Ea.
        -- exfalso. exact (Hfa m' eq_refl).
        -- apply Hu, HR.
    + rewrite (audio_target_none w p md Hmd Ht). apply Hu, HR.
  - assert (Hn : audio_target CD w p = None) by (unfold audio_target; rewrite Hmd; reflexivity).
    rewrite Hn. apply Hu, HR.
Qed.

End EvictOne.

Section EvictAll.
Variable CD : path.

Lemma removals_in w R p x : In x (removals CD w R p) ->
  x = p \/ (audio_target CD w p = Some x /\ lookup w x <> None).
Proof.
  unfold removals. intros H. apply in_app_or in H as [H|[H|[]]]; [|left; congruence].
  destruct (audio_target CD w p) as [a|] eqn:Ha; [|destruct H].
  destruct (existsb (path_eqb a) R); [destruct H|].
  destruct (lookup w a) eqn:La; [|destruct H]. destruct H as [<-|[]]. right; split; congruence.
Qed.

Lemma evict_removals_in w R l x : In x (evict_removals CD w R l) ->
  In x l \/ exists p, In p l /\ audio_target CD w p = Some x /\ lookup w x <> None.
Proof.
  revert R; induction l as [|p l IH]; intros R H; simpl in H; [destruct H|].
  apply in_app_or in H as [H|H].
  - apply removals_in in H as [->|H]; [left; left; reflexivity|right; exists p; split; [left; reflexivity|exact H]].
  - apply IH in H as [H|[q [Hq H]]]; [left; right; exact H|right; exists q; split; [right; exact Hq|exact H]].
Qed.

Lemma evict_removals_all w R l p : In p l -> In p (evict_removals CD w R l).
Proof.
  revert R; induction l as [|q l IH]; intros R H; simpl; [destruct H|]. apply in_or_app.
  destruct H as [<-|H]; [left; unfold removals; apply in_or_app; right; left; reflexivity|right; apply IH, H].
Qed.

Lemma evict_removals_order w R l p a : In p l -> audio_target CD w p = Some a -> lookup w a <> None ->
  exists R1 R2, R ++ evict_removals CD w R l = R1 ++ a :: R2 /\ In p R2.
Proof.
  revert R; induction l as [|q l IH]; intros R Hp Ha La; [destruct Hp|]. simpl.
  destruct Hp as [->|Hp].
  - unfold removals. rewrite Ha.
    destruct (existsb (path_eqb a) R) eqn:Ea.
    + apply existsb_path_In in Ea. apply in_split in Ea as [R1 [R2 ->]].
      exists R1, (R2 ++ ([] ++ [p]) ++ evict_removals CD w (((R1 ++ a :: R2)) ++ [] ++ [p]) l).
      split; [rewrite <- app_assoc; reflexivity|]. apply in_or_app; right; left; reflexivity.
    + destruct (lookup w a) as [n|]; [|congruence].
      exists R, ([p] ++ evict_removals CD w (R ++ [a] ++ [p]) l). split; [reflexivity|]. left; reflexivity.
  - destruct (IH (R ++ removals CD w R q) Hp Ha La) as [R1 [R2 [E H]]].
    exists R1, R2. split; [|exact H]. rewrite app_assoc. exact E.
Qed.

Lemma evict_all_removed w R l :
  no_dotdot CD = true ->
  (forall p, In p l -> glob_match CD p = true /\ evictable CD w p = true) ->
  NoDup l -> (forall p, In p l -> ~ In p R) ->
  evict_all CD l (removed w R) = (removed w (R ++ evict_removals CD w R l), Ok tt).
Proof.
  intros Hcd; revert R; induction l as [|p l IH]; intros R Hl Hnd HR; simpl.
  - rewrite app_nil_r. reflexivity.
  - destruct (Hl p (or_introl eq_refl)) as [Hg He]. inversion Hnd as [|? ? Hnp Hnd']; subst.
    unfold bind. rewrite evict_one_removed by (assumption || apply HR; left; reflexivity).
    rewrite IH, <- app_assoc; [reflexivity| intros; apply Hl; right; assumption | exact Hnd' |].
    intros q Hq Hin. apply in_app_or in Hin as [Hin|Hin]; [exact (HR q (or_intror Hq) Hin)|].
    apply removals_in in Hin as [->|[Ha _]]; [exact (Hnp Hq)|].
    destruct (evictable_target CD w p q He Ha) as [Hgq _].
    destruct (Hl q (or_intror Hq)) as [Hgq' _]. congruence.
Qed.

End EvictAll.

Lemma NoDup_map_fst_filter {A B} (f : A * B -> bool) (l : list (A * B)) :
  NoDup (map fst l) -> NoDup (map fst (filter f l)).
Proof.
  induction l as [|e l IH]; intros H; simpl; [constructor|]. inversion H as [|? ? Hn Hl]; subst.
  destruct (f e); simpl; [|apply IH, Hl]. constructor; [|apply IH, Hl].
  intros Hin. apply Hn. apply in_map_iff in Hin as [e' [E Hin]]. apply filter_In in Hin as [Hin _].
  rewrite <- E. apply in_map, Hin.
Qed.

Lemma Permutation_filter_compat {A} (f : A -> bool) l l' :
  Permutation l l' -> Permutation (filter f l) (filter f l').
Proof.
  induction 1; simpl.
  - constructor.
  - destruct (f x); [constructor|]; assumption.
  - destruct (f x), (f y); try constructor; reflexivity.
  - eapply Permutation_trans; eassumption.
Qed.

Lemma StronglySorted_app_rel {A} (R : A -> A -> Prop) l1 l2 a b :
  StronglySorted R (l1 ++ l2) -> In a l1 -> In b l2 -> R a b.
Proof.
  induction l1 as [|x l1 IH]; intros H Ha Hb; [destruct Ha|]. simpl in H.
  apply StronglySorted_inv in H as [H Hx]. destruct Ha as [<-|Ha].
  - rewrite Forall_forall in Hx. apply Hx, in_or_app; right; exact Hb.
  - apply IH; assumption.
Qed.

Lemma NoDup_app_disj {A} (l1 l2 : list A) x : NoDup (l1 ++ l2) -> In x l1 -> ~ In x l2.
Proof.
  induction l1 as [|y l1 IH]; intros H Hx; [destruct Hx|]. simpl in H. inversion H as [|? ? Hn Hl]; subst.
  destruct Hx as [<-|Hx]; [intros Hin; apply Hn, in_or_app; right; exact Hin|apply IH; assumption].
Qed.

Lemma filter_all_false {A} (f : A -> bool) l : (forall x, In x l -> f x = false) -> filter f l = [].
Proof.
  induction l as [|x l IH]; intros H; simpl; [reflexivity|]. rewrite H by (left; reflexivity). apply IH.
  intros; apply H; right; assumption.
Qed.

Lemma audio_target_resolved CD w p a : audio_target CD w p = Some a -> os_resolve a = a.
Proof.
  unfold audio_target. destruct (load_metadata w p) as [[]|]; try discriminate.
  destruct (truthy (JObj kv)); [|discriminate]. destruct (obj_get (s2z "audio_file") kv) as [[]|]; try discriminate.
  intros H; injection H as <-. apply os_resolve_idem.
Qed.

Lemma nodup_paths_NoDup l : nodup_paths l = true -> NoDup l.
Proof.
  induction l as [|p l IH]; simpl; intros H; [constructor|]. apply andb_prop in H as [H1 H2].
  constructor; [|apply IH, H2]. apply negb_true_iff, existsb_path_notIn in H1. exact H1.
Qed.

Section Init.
Variable CD : path.

Lemma sorted_json_facts w : NoDup (map fst (files w)) ->
  Permutation (sorted_json CD w) (glob_json CD w) /\ NoDup (sorted_json CD w)
  /\ (forall p, In p (sorted_json CD w) -> glob_match CD p = true).
Proof.
  intros H. assert (P : Permutation (sorted_json CD w) (glob_json CD w)) by apply sort_desc_perm.
  split; [exact P|split].
  - apply (Permutation_NoDup (Permutation_sym P)). apply NoDup_map_fst_filter, H.
  - intros p Hp. apply (glob_json_match CD w). exact (Permutation_in _ P Hp).
Qed.

Lemma init_removes w m :
  no_dotdot CD = true -> lookup w CD = Some (Folder m) -> NoDup (map fst (files w)) ->
  forallb (evictable CD w) (skipn MAX_CACHE_SIZE (sorted_json CD w)) = true ->
  init CD w = (removed w (evict_removals CD w [] (skipn MAX_CACHE_SIZE (sorted_json CD w))), Ok tt).
Proof.
  intros Hcd Hdir Hnd Hev. destruct (sorted_json_facts w Hnd) as [P [HS Hg]].
  unfold init, bind, mkdir_p. rewrite Hdir. unfold cleanup_old_files.
  set (S := sorted_json CD w) in *. set (L := skipn MAX_CACHE_SIZE S).
  assert (HL : forall p, In p L -> glob_match CD p = true /\ evictable CD w p = true).
  { intros p Hp. split; [|rewrite forallb_forall in Hev; apply Hev, Hp].
    apply Hg. rewrite <- (firstn_skipn MAX_CACHE_SIZE S). apply in_or_app; right; exact Hp. }
  assert (HndL : NoDup L) by (apply (NoDup_app_remove_l (firstn MAX_CACHE_SIZE S)); rewrite firstn_skipn; exact HS).
  destruct (Nat.ltb MAX_CACHE_SIZE (length S)) eqn:Hlt.
  - pose proof (evict_all_removed CD w [] L Hcd HL HndL (fun p _ H => H)) as E.
    rewrite removed_nil in E. exact E.
  - apply Nat.ltb_ge in Hlt. unfold L. rewrite skipn_all2 by exact Hlt. simpl. rewrite removed_nil. reflexivity.
Qed.

End Init.

(** * Round trip of a metadata record through [json.dump] and [json.loads] *)

Lemma hexval_hexd n : 0 <= n < 16 -> hexval (hexd n) = Some n.
Proof.
  intros H. unfold hexd, hexval. destruct (n <? 10) eqn:E; rewrite ?Z.ltb_lt, ?Z.ltb_ge in E.
  - replace ((48 <=? 48 + n) && (48 + n <=? 57)) with true by (symmetry; apply andb_true_iff; split; apply Z.leb_le; lia).
    f_equal; lia.
  - replace ((48 <=? 87 + n) && (87 + n <=? 57)) with false by (symmetry; apply andb_false_iff; right; apply Z.leb_gt; lia).
    replace ((97 <=? 87 + n) && (87 + n <=? 102)) with true by (symmetry; apply andb_true_iff; split; apply Z.leb_le; lia).
    f_equal; lia.
Qed.

Lemma dec4_hex4 u : 0 <= u < 65536 ->
  dec4 (hexd (u / 4096 mod 16)) (hexd (u / 256 mod 16)) (hexd (u / 16 mod 16)) (hexd (u mod 16)) = Some u.
Proof.
  intros H. unfold dec4. rewrite !hexval_hexd by (apply Z.mod_pos_bound; lia). f_equal.
  Z.div_mod_to_equations. lia.
Qed.

Lemma lor_low x y k : 0 <= k -> 0 <= y < 2 ^ k -> Z.lor (x * 2 ^ k) y = x * 2 ^ k + y.
Proof.
  intros Hk Hy. rewrite <- Z.add_lor_land.
  replace (Z.land (x * 2 ^ k) y) with 0; [lia|].
  symmetry. apply Z.bits_inj_0. intros n. rewrite Z.land_spec.
  destruct (Z.lt_ge_cases n k) as [Hn|Hn].
  - destruct (Z.lt_ge_cases n 0) as [H0|H0]; [rewrite Z.testbit_neg_r by exact H0; reflexivity|].
    rewrite Z.mul_pow2_bits_low by lia. reflexivity.
  - destruct (Z.lt_ge_cases n 0) as [H0|H0]; [rewrite (Z.testbit_neg_r y) by exact H0; apply andb_false_r|].
    rewrite (proj2 (Z.testbit_false y n H0)); [apply andb_false_r|]. rewrite Z.div_small; [reflexivity|].
    split; [lia|]. apply Z.lt_le_trans with (2 ^ k); [lia|]. apply Z.pow_le_mono_r; lia.
Qed.

Lemma surrogates c : 65536 <= c <= 1114111 ->
  let n := c - 65536 in
  let hi := Z.lor 55296 (Z.land (Z.shiftr n 10) 1023) in
  let lo := Z.lor 56320 (Z.land n 1023) in
  0 <= hi < 65536 /\ 0 <= lo < 65536 /\ is_high hi = true /\ is_low lo = true /\ join_sur hi lo = c.
Proof.
  intros H n hi lo.
  assert (Hn : 0 <= n < 2 ^ 20) by (unfold n; simpl; lia).
  assert (E1 : Z.land (Z.shiftr n 10) 1023 = n / 1024).
  { change 1023 with (Z.ones 10). rewrite Z.land_ones, Z.shiftr_div_pow2 by lia.
    apply Z.mod_small. change (2 ^ 10) with 1024. split; [apply Z.div_pos; lia|]. apply Z.div_lt_upper_bound; lia. }
  assert (E2 : Z.land n 1023 = n mod 1024).
  { change 1023 with (Z.ones 10). rewrite Z.land_ones by lia. reflexivity. }
  assert (Hhi : hi = 55296 + n / 1024).
  { unfold hi. rewrite E1. change 55296 with (54 * 2 ^ 10). apply lor_low; [lia|].
    change (2 ^ 10) with 1024. split; [apply Z.div_pos; lia|]. apply Z.div_lt_upper_bound; lia. }
  assert (Hlo : lo = 56320 + n mod 1024).
  { unfold lo. rewrite E2. change 56320 with (55 * 2 ^ 10). apply lor_low; [lia|].
    change (2 ^ 10) with 1024. apply Z.mod_pos_bound; lia. }
  assert (Hq : 0 <= n / 1024 < 1024) by (split; [apply Z.div_pos; lia|apply Z.div_lt_upper_bound; lia]).
  assert (Hr : 0 <= n mod 1024 < 1024) by (apply Z.mod_pos_bound; lia).
  rewrite Hhi, Hlo. unfold is_high, is_low, join_sur.
  split; [lia|]. split; [lia|]. split; [apply andb_true_iff; split; apply Z.leb_le; lia|].
  split; [apply andb_true_iff; split; apply Z.leb_le; lia|].
  change 1023 with (Z.ones 10). rewrite !Z.land_ones by lia.
  rewrite Z.shiftl_mul_pow2 by lia.
  replace ((55296 + n / 1024) mod 2 ^ 10) with (n / 1024)
    by (symmetry; change 55296 with (54 * 2 ^ 10); rewrite Z.add_comm, Z.mod_add by lia; apply Z.mod_small; exact Hq).
  replace ((56320 + n mod 1024) mod 2 ^ 10) with (n mod 1024)
    by (symmetry; change 56320 with (55 * 2 ^ 10); rewrite Z.add_comm, Z.mod_add by lia; apply Z.mod_small; exact Hr).
  rewrite lor_low by (change (2 ^ 10) with 1024; lia).
  unfold n. pose proof (Z.div_mod (c - 65536) 1024). lia.
Qed.

Lemma esc_cases c : 0 <= c <= 1114111 ->
  (c = 92 \/ c = 34 \/ c = 8 \/ c = 12 \/ c = 10 \/ c = 13 \/ c = 9)
  \/ (esc c = [c] /\ 32 <= c /\ c <> 34 /\ c <> 92)
  \/ (esc c = 92 :: 117 :: hex4 c /\ c < 65536)
  \/ (exists hi lo, esc c = 92 :: 117 :: hex4 hi ++ 92 :: 117 :: hex4 lo
        /\ 0 <= hi < 65536 /\ 0 <= lo < 65536 /\ is_high hi = true /\ is_low lo = true /\ join_sur hi lo = c).
Proof.
  intros H. unfold esc.
  destruct (c =? 92) eqn:E1; [apply Z.eqb_eq in E1; left; tauto|].
  destruct (c =? 34) eqn:E2; [apply Z.eqb_eq in E2; left; tauto|].
  destruct (c =? 8) eqn:E3; [apply Z.eqb_eq in E3; left; tauto|].
  destruct (c =? 12) eqn:E4; [apply Z.eqb_eq in E4; left; tauto|].
  destruct (c =? 10) eqn:E5; [apply Z.eqb_eq in E5; left; tauto|].
  destruct (c =? 13) eqn:E6; [apply Z.eqb_eq in E6; left; tauto|].
  destruct (c =? 9) eqn:E7; [apply Z.eqb_eq in E7; left; tauto|].
  apply Z.eqb_neq in E1, E2. right.
  destruct ((32 <=? c) && (c <=? 126)) eqn:E8.
  - apply andb_true_iff in E8 as [E8 _]. apply Z.leb_le in E8. left. tauto.
  - right. destruct (c <? 65536) eqn:E9; [apply Z.ltb_lt in E9; left; tauto|].
    apply Z.ltb_ge in E9. right. destruct (surrogates c (conj E9 (proj2 H))) as [A [B [C [D F]]]].
    eexists _, _. split; [reflexivity|]. split; [exact A|split; [exact B|split; [exact C|split; [exact D|exact F]]]].
Qed.

Lemma scan_u a b c d r : scan_string (92 :: 117 :: a :: b :: c :: d :: r) =
  match dec4 a b c d with
  | None => None
  | Some u =>
      if is_high u then
        match r with
        | x1 :: x2 :: a2 :: b2 :: c2 :: d2 :: r4 =>
            if (x1 =? 92) && (x2 =? 117) then
              match dec4 a2 b2 c2 d2 with
              | None => None
              | Some u2 => if is_low u2 then cons_fst (join_sur u u2) (scan_string r4)
                           else cons_fst u (scan_string r)
              end
            else cons_fst u (scan_string r)
        | _ => cons_fst u (scan_string r)
        end
      else cons_fst u (scan_string r)
  end.
Proof. destruct r as [|x1 [|x2 [|a2 [|b2 [|c2 [|d2 r4]]]]]]; reflexivity. Qed.

Lemma hex4_cons u t : hex4 u ++ t =
  hexd (u / 4096 mod 16) :: hexd (u / 256 mod 16) :: hexd (u / 16 mod 16) :: hexd (u mod 16) :: t.
Proof. reflexivity. Qed.

Lemma scan_hex4 u t : 0 <= u < 65536 ->
  (is_high u = true -> forall a b c d r, t = 92 :: 117 :: a :: b :: c :: d :: r ->
     exists u2, dec4 a b c d = Some u2 /\ is_low u2 = false) ->
  scan_string (92 :: 117 :: hex4 u ++ t) = cons_fst u (scan_string t).
Proof.
  intros Hu Ht. rewrite hex4_cons, scan_u, dec4_hex4 by exact Hu.
  destruct (is_high u) eqn:Hh; [|reflexivity]. specialize (Ht eq_refl).
  destruct t as [|x1 [|x2 [|a2 [|b2 [|c2 [|d2 r4]]]]]]; try reflexivity.
  destruct ((x1 =? 92) && (x2 =? 117)) eqn:E; [|reflexivity].
  apply andb_true_iff in E as [E1 E2]. apply Z.eqb_eq in E1, E2. subst x1 x2.
  destruct (Ht a2 b2 c2 d2 r4 eq_refl) as [u2 [D L]]. rewrite D, L. reflexivity.
Qed.

Lemma scan_pair hi lo t : 0 <= hi < 65536 -> 0 <= lo < 65536 -> is_high hi = true -> is_low lo = true ->
  scan_string (92 :: 117 :: hex4 hi ++ 92 :: 117 :: hex4 lo ++ t) = cons_fst (join_sur hi lo) (scan_string t).
Proof.
  intros Hhi Hlo Hh Hl. rewrite hex4_cons, scan_u, dec4_hex4, Hh by exact Hhi.
  rewrite hex4_cons. cbn iota beta. rewrite dec4_hex4, Hl by exact Hlo. reflexivity.
Qed.

Lemma scan_plain c t : 32 <= c -> c <> 34 -> c <> 92 -> scan_string (c :: t) = cons_fst c (scan_string t).
Proof.
  intros H1 H2 H3. simpl. apply Z.eqb_neq in H2, H3. rewrite H2, H3.
  replace (c <? 32) with false by (symmetry; apply Z.ltb_ge; lia). reflexivity.
Qed.

Lemma scan_esc c t : 0 <= c <= 1114111 ->
  (is_high c = true -> forall a b c' d r, t = 92 :: 117 :: a :: b :: c' :: d :: r ->
     exists u2, dec4 a b c' d = Some u2 /\ is_low u2 = false) ->
  scan_string (esc c ++ t) = cons_fst c (scan_string t).
Proof.
  intros Hc Ht. destruct (esc_cases c Hc) as [H|[[E [H1 [H2 H3]]]|[[E H]|H]]].
  - destruct H as [->|[->|[->|[->|[->|[->| ->]]]]]]; reflexivity.
  - rewrite E. apply scan_plain; assumption.
  - rewrite E. apply scan_hex4; [lia|exact Ht].
  - destruct H as [hi [lo [E [A [B [C [D F]]]]]]].
    rewrite E. cbn [app]. rewrite <- app_assoc. cbn [app].
    rewrite scan_pair by assumption. rewrite F. reflexivity.
Qed.

Lemma esc_head c t a b c' d r : 0 <= c <= 1114111 -> is_low c = false ->
  esc c ++ t = 92 :: 117 :: a :: b :: c' :: d :: r -> exists u, dec4 a b c' d = Some u /\ is_low u = false.
Proof.
  intros Hc Hl. destruct (esc_cases c Hc) as [H|[[E [H1 [H2 H3]]]|[[E H]|H]]].
  - destruct H as [->|[->|[->|[->|[->|[->| ->]]]]]]; intros Heq; simpl in Heq; injection Heq as E _; discriminate E.
  - rewrite E. intros Heq. injection Heq as Heq. congruence.
  - rewrite E. cbn [app]. rewrite hex4_cons. intros Heq. injection Heq as <- <- <- <- _.
    exists c. split; [apply dec4_hex4; lia|exact Hl].
  - destruct H as [hi [lo [E [A [B [C [D F]]]]]]].
    rewrite E. cbn [app]. rewrite <- app_assoc, hex4_cons. intros Heq. injection Heq as <- <- <- <- _.
    exists hi. split; [apply dec4_hex4, A|].
    unfold is_high, is_low in *. apply andb_true_iff in C as [C1 C2]. apply Z.leb_le in C1, C2.
    apply andb_false_iff. left. apply Z.leb_gt. lia.
Qed.

Lemma scan_enc s rest : no_surrogate_pair s = true -> scan_string (flat_map esc s ++ 34 :: rest) = Some (s, rest).
Proof.
  induction s as [|c s IH]; intros H; [reflexivity|].
  cbn [no_surrogate_pair] in H. apply andb_true_iff in H as [H Hs]. apply andb_true_iff in H as [Hc Hp].
  apply andb_true_iff in Hc as [Hc1 Hc2]. apply Z.leb_le in Hc1, Hc2.
  cbn [flat_map]. rewrite <- app_assoc. rewrite scan_esc; [rewrite IH by exact Hs; reflexivity|lia|].
  intros Hh. destruct s as [|d s'].
  - cbn [flat_map app]. intros a b c' d r Heq. injection Heq as E _. discriminate E.
  - rewrite Hh in Hp. cbn [flat_map]. rewrite <- app_assoc. intros a b c' d' r. apply esc_head.
    + cbn [no_surrogate_pair] in Hs. apply andb_true_iff in Hs as [Hs _]. apply andb_true_iff in Hs as [Hs _].
      apply andb_true_iff in Hs as [D1 D2]. apply Z.leb_le in D1, D2. lia.
    + apply negb_true_iff, Hp.
Qed.

Lemma pv_str f r : parse_value (S f) (34 :: r) =
  match scan_string r with Some (x, r') => Some (JStr x, r') | None => None end.
Proof. reflexivity. Qed.

Lemma pv_obj f r : parse_value (S f) (123 :: r) =
  match skip_ws r with
  | 125 :: r2 => Some (JObj [], r2)
  | r1 => match parse_members f r1 with Some (kvs, r2) => Some (JObj kvs, r2) | None => None end
  end.
Proof. reflexivity. Qed.

Lemma pm_eq f r : parse_members (S f) (34 :: r) =
  match scan_string r with
  | None => None
  | Some (k, r1) =>
      match skip_ws r1 with
      | 58 :: r2 =>
          match parse_value f (skip_ws r2) with
          | None => None
          | Some (v, r3) =>
              match skip_ws r3 with
              | 125 :: r4 => Some ([(k, v)], r4)
              | 44 :: r4 =>
                  match parse_members f (skip_ws r4) with
                  | Some (kvs, r5) => Some ((k, v) :: kvs, r5)
                  | None => None
                  end
              | _ => None
              end
          end
      | _ => None
      end
  end.
Proof. reflexivity. Qed.

Lemma pv_opt f v rest : match v with Some s => no_surrogate_pair s = true | None => True end ->
  parse_value (S f) (enc_opt v ++ rest) = Some (opt_json v, rest).
Proof.
  destruct v as [s|]; intros H.
  - unfold enc_opt, enc_str. cbn [app]. rewrite <- app_assoc. cbn [app]. rewrite pv_str, scan_enc by exact H. reflexivity.
  - reflexivity.
Qed.

Lemma enc_item_shape kv X : enc_item kv ++ X =
  34 :: flat_map esc (fst kv) ++ 34 :: 58 :: 32 :: enc_opt (snd kv) ++ X.
Proof. destruct kv as [k v]. unfold enc_item, enc_str. cbn [fst snd app]. rewrite <- !app_assoc. reflexivity. Qed.

Lemma skip_ws_enc_opt v X : skip_ws (enc_opt v ++ X) = enc_opt v ++ X.
Proof. destruct v; reflexivity. Qed.

Lemma join_cons2 (sep x y : pystr) l : join sep (x :: y :: l) = x ++ sep ++ join sep (y :: l).
Proof. reflexivity. Qed.

Lemma skip_ws_58 X : skip_ws (58 :: X) = 58 :: X. Proof. simpl; reflexivity. Qed.
Lemma skip_ws_44 X : skip_ws (44 :: X) = 44 :: X. Proof. simpl; reflexivity. Qed.
Lemma skip_ws_125 X : skip_ws (125 :: X) = 125 :: X. Proof. simpl; reflexivity. Qed.
Lemma skip_ws_34 X : skip_ws (34 :: X) = 34 :: X. Proof. simpl; reflexivity. Qed.
Lemma skip_ws_32 X : skip_ws (32 :: X) = skip_ws X. Proof. simpl; reflexivity. Qed.
Lemma skip_ws_10 X : skip_ws (10 :: X) = skip_ws X. Proof. simpl; reflexivity. Qed.

Lemma skip_nl X : skip_ws (nl_indent ++ X) = skip_ws X. Proof. simpl; reflexivity. Qed.

Lemma skip_ws_items sep kv l X : skip_ws (join sep (enc_item kv :: map enc_item l) ++ X)
  = join sep (enc_item kv :: map enc_item l) ++ X.
Proof.
  destruct l as [|kv' l]; cbn [map join]; [|rewrite <- app_assoc]; rewrite enc_item_shape; apply skip_ws_34.
Qed.

Lemma parse_members_enc kvs f : kvs <> [] -> Forall item_ok kvs -> (S (length kvs) <= f)%nat ->
  parse_members f (join (44 :: nl_indent) (map enc_item kvs) ++ [10; 125])
  = Some (map (fun kv => (fst kv, opt_json (snd kv))) kvs, []).
Proof.
  revert f; induction kvs as [|kv kvs IH]; intros f Hne Hok Hf; [congruence|].
  inversion Hok as [|? ? [Hk Hv] Hok']; subst.
  destruct f as [|f]; [simpl in Hf; lia|]. destruct f as [|f']; [simpl in Hf; lia|].
  destruct kvs as [|kv' kvs'].
  - cbn [map join]. rewrite enc_item_shape, pm_eq, scan_enc by exact Hk.
    rewrite skip_ws_58. cbv beta iota. rewrite skip_ws_32, skip_ws_enc_opt, pv_opt by exact Hv.
    rewrite skip_ws_10, skip_ws_125. reflexivity.
  - cbn [map]. rewrite join_cons2, <- !app_assoc, enc_item_shape, pm_eq, scan_enc by exact Hk.
    rewrite skip_ws_58. cbv beta iota. rewrite skip_ws_32, skip_ws_enc_opt, pv_opt by exact Hv.
    cbn [app]. rewrite skip_ws_44. cbv beta iota. rewrite skip_nl, skip_ws_items.
    cbn [map] in IH. rewrite IH; [reflexivity|discriminate|exact Hok'|simpl in *; lia].
Qed.

Lemma join_len (sep : pystr) l : Forall (fun x => x <> []) l -> (length l <= length (join sep l))%nat.
Proof.
  induction l as [|x l IH]; intros H; [simpl; lia|]. inversion H as [|? ? Hx Hl]; subst.
  destruct l as [|y l'].
  - simpl. destruct x; [congruence|simpl; lia].
  - rewrite join_cons2, !length_app. specialize (IH Hl). simpl in IH |- *. destruct x; [congruence|simpl; lia].
Qed.

Lemma loads_dump_flat kvs : kvs <> [] -> Forall item_ok kvs ->
  loads (dump_flat kvs) = Some (JObj (map (fun kv => (fst kv, opt_json (snd kv))) kvs)).
Proof.
  destruct kvs as [|kv l]; [congruence|]. intros _ Hok.
  pose proof (join_len (44 :: nl_indent) (map enc_item (kv :: l))) as HJ.
  rewrite length_map in HJ.
  assert (HJ' : Nat.le (length (kv :: l)) (length (join (44 :: nl_indent) (map enc_item (kv :: l))))).
  { apply HJ. apply Forall_forall. intros x Hx. apply in_map_iff in Hx as [kv' [<- _]].
    destruct kv' as [k v]. unfold enc_item, enc_str. discriminate. }
  clear HJ.
  unfold dump_flat, loads.
  set (J := join (44 :: nl_indent) (map enc_item (kv :: l))) in *.
  assert (HY : exists Y, J ++ [10; 125] = 34 :: Y).
  { unfold J. destruct l as [|kv' l']; cbn [map join]; [|rewrite <- app_assoc]; rewrite enc_item_shape; eexists; reflexivity. }
  destruct HY as [Y HY].
  change ([123] ++ nl_indent ++ J ++ [10; 125]) with (123 :: nl_indent ++ J ++ [10; 125]).
  replace (skip_ws (123 :: nl_indent ++ J ++ [10; 125])) with (123 :: nl_indent ++ J ++ [10; 125])
    by (simpl; reflexivity).
  remember (length (123 :: nl_indent ++ J ++ [10; 125])) as n eqn:Hn.
  rewrite pv_obj, skip_nl, HY, skip_ws_34. cbv beta iota. rewrite <- HY.
  destruct n as [|n]; [discriminate|].
  unfold J. rewrite parse_members_enc; [reflexivity|discriminate|exact Hok|].
  simpl in Hn. rewrite !length_app in Hn. fold J. simpl in HJ' |- *. injection Hn as Hn. lia.
Qed.

Lemma nsp_app_sep a b c : no_surrogate_pair a = true -> no_surrogate_pair b = true ->
  0 <= c <= 1114111 -> is_high c = false -> is_low c = false -> no_surrogate_pair (a ++ c :: b) = true.
Proof.
  intros Ha Hb Hc Hh Hl. induction a as [|x a IH].
  - cbn [app no_surrogate_pair]. rewrite Hb, Hh. cbn [andb negb].
    replace ((0 <=? c) && (c <=? 1114111)) with true by (symmetry; apply andb_true_iff; split; apply Z.leb_le; lia).
    destruct b; reflexivity.
  - cbn [app no_surrogate_pair] in Ha |- *. apply andb_true_iff in Ha as [Ha Ha'].
    rewrite (IH Ha'). apply andb_true_iff in Ha as [Hx Hp]. rewrite Hx. cbn [andb].
    destruct a as [|y a'].
    + cbn [app]. rewrite Hl, andb_false_r. reflexivity.
    + cbn [app]. rewrite Hp. reflexivity.
Qed.

End Facts.
Import Facts.

Module Claims.

(** C3: [OpenAITTSProvider.synthesize] first replaces a falsy voice or
    format by its default; an unknown voice, or (with a known voice) an
    unknown format, raises [ValueError] whose message names the value and
    lists the accepted ones, and the world is left exactly as it was: no
    request reached the API (its log has no new [EApi]), no file was
    written.  A voice or format left out is never the one rejected. *)
Theorem openai_validation (cwd : path) (E : OpenAI.env) (text : pystr)
    (output_file voice instructions response_format : option pystr) (w : world) :
  let v := match voice with Some ((_ :: _) as v) => v | _ => OpenAI.DEFAULT_VOICE end in
  let f := match response_format with Some ((_ :: _) as f) => f | _ => OpenAI.DEFAULT_FORMAT end in
  (mem v OpenAI.VOICES = false ->
     OpenAI.synthesize cwd E text output_file voice instructions response_format w
     = (w, Err (ValueError (s2z "Invalid voice '" ++ v ++ s2z "'. Available: "
                            ++ join (s2z ", ") OpenAI.VOICES))))
  /\ (mem v OpenAI.VOICES = true -> mem f OpenAI.AUDIO_FORMATS = false ->
     OpenAI.synthesize cwd E text output_file voice instructions response_format w
     = (w, Err (ValueError (s2z "Invalid format '" ++ f ++ s2z "'. Available: "
                            ++ join (s2z ", ") OpenAI.AUDIO_FORMATS))))
  /\ (truthy_opt voice = false -> v = OpenAI.DEFAULT_VOICE /\ mem v OpenAI.VOICES = true)
  /\ (truthy_opt response_format = false ->
        f = OpenAI.DEFAULT_FORMAT /\ mem f OpenAI.AUDIO_FORMATS = true).
Proof.
  intros v f; unfold OpenAI.synthesize; fold v f.
  repeat split; intros.
  - rewrite H; reflexivity.
  - rewrite H, H0; reflexivity.
  - subst v; destruct voice as [[|? ?]|]; simpl in H; congruence.
  - subst v; destruct voice as [[|? ?]|]; simpl in H; try congruence; reflexivity.
  - subst f; destruct response_format as [[|? ?]|]; simpl in H; congruence.
  - subst f; destruct response_format as [[|? ?]|]; simpl in H; try congruence; reflexivity.
Qed.

Lemma openai_validation_witness :
  mem (s2z "robot") OpenAI.VOICES = false /\
  OpenAI.synthesize cwd0 env_broken (s2z "hi") None (Some (s2z "robot")) None None w_tmp
  = (w_tmp, Err (ValueError (s2z "Invalid voice '" ++ s2z "robot" ++ s2z "'. Available: "
                             ++ join (s2z ", ") OpenAI.VOICES))).
Proof.
  split; [reflexivity|].
  exact (proj1 (openai_validation cwd0 env_broken (s2z "hi") None (Some (s2z "robot")) None None w_tmp)
           eq_refl).
Defined.

(** C4 (evaluation at the failing inputs): [play] does not return [False]
    when the player cannot be started, it raises [FileNotFoundError]; and on
    a record without ["audio_file"] it raises [KeyError]. *)
Theorem play_raises :
  snd (play CD0 PNotFound (s2z "abc") w_play) = Err FileNotFoundError
  /\ snd (play CD0 PExit0 (s2z "k") w_play) = Err (KeyError (s2z "audio_file")).
Proof. split; vm_compute; reflexivity. Qed.

(** C9 (evaluation at the failing input): when the download into the
    temporary file breaks, [synthesize] raises the wrapped error and the
    temporary file is still there. *)
Theorem tmp_file_survives_broken_stream :
  let (w', r) := OpenAI.synthesize cwd0 env_broken (s2z "hello") None None None None w_tmp in
  r = Err (RuntimeWrap StreamError) /\ lookup w' tmp0 = Some (RegFile 2 (s2z "ID3")).
Proof. vm_compute. split; reflexivity. Qed.

(** C8 (counterexample): two draws of [uuid4] that agree on their first
    32 bits give the same cache id, so [K] calls need not yield [K]
    distinct ids. *)
Lemma generate_cache_path_collision :
  ~ NoDup (map (fun r => fst (generate_cache_path CD0 (s2z "mp3") r)) [0; 1]).
Proof.
  vm_compute. intros H. inversion H as [|x l Hx Hnd]. apply Hx. left. reflexivity.
Qed.

(** C8 (amended): for random draws [rs] of 16 bytes each and a format
    without ['/'], every id is the 8 lowercase hex digits of the first 32
    bits of its draw, and its path is the cache directory joined with
    [<id>.<format>]; the ids of [rs] are pairwise distinct exactly when
    those 32-bit prefixes are, so more than [16^8] calls always repeat an
    id. *)
Theorem generate_cache_path_ids (CACHE_DIR : path) (format : pystr) (rs : list Z) :
  Forall (fun r => 0 <= r < 2 ^ 128) rs -> ~ In 47 format ->
  Forall (fun r =>
    let (cache_id, cache_path) := generate_cache_path CACHE_DIR format r in
    cache_id = hexpad 8 (r / 2 ^ 96) /\ length cache_id = 8%nat
    /\ Forall (fun c => (48 <= c <= 57) \/ (97 <= c <= 102)) cache_id
    /\ cache_path = pstr (CACHE_DIR ++ [cache_id ++ [46] ++ format])) rs
  /\ (NoDup (map (fun r => fst (generate_cache_path CACHE_DIR format r)) rs)
      <-> NoDup (map (fun r => r / 2 ^ 96) rs))
  /\ (NoDup (map (fun r => fst (generate_cache_path CACHE_DIR format r)) rs) ->
      Z.of_nat (length rs) <= 16 ^ 8).
Proof.
  intros Hrs Hf.
  assert (Hid : forall r, In r rs -> fst (generate_cache_path CACHE_DIR format r) = hexpad 8 (r / 2 ^ 96)).
  { intros r Hr. rewrite Forall_forall in Hrs. unfold generate_cache_path; cbn [fst]. apply cache_id_eq; apply Hrs; exact Hr. }
  assert (Hrange : forall r, In r rs -> 0 <= r / 2 ^ 96 < 16 ^ 8).
  { intros r Hr. rewrite Forall_forall in Hrs. specialize (Hrs r Hr). split.
    - apply Z.div_pos; lia.
    - apply Z.div_lt_upper_bound; [lia|]. replace (2 ^ 96 * 16 ^ 8) with (2 ^ 128) by reflexivity. lia. }
  assert (Hiff : NoDup (map (fun r => fst (generate_cache_path CACHE_DIR format r)) rs)
                 <-> NoDup (map (fun r => r / 2 ^ 96) rs)).
  { apply map_NoDup_iff. intros x y Hx Hy. rewrite (Hid x Hx), (Hid y Hy). split; intros E.
    - apply hexpad_inj in E. apply (Zmod_small_eq _ _ (16 ^ Z.of_nat 8)); [apply Hrange, Hx | apply Hrange, Hy | exact E].
    - rewrite E; reflexivity. }
  split; [|split; [exact Hiff|]].
  - rewrite Forall_forall. intros r Hr. unfold generate_cache_path. cbv zeta.
    rewrite cache_id_eq by (rewrite Forall_forall in Hrs; apply Hrs, Hr).
    pose proof (hexpad_length 8 (r / 2 ^ 96)) as Hl; pose proof (hexpad_digits 8 (r / 2 ^ 96)) as Hd.
    destruct (hexpad 8 (r / 2 ^ 96)) as [|c0 cs]; [discriminate|].
    split; [reflexivity|]. split; [exact Hl|]. split; [exact Hd|].
    unfold pjoin, is_abs. inversion Hd as [|? ? Hc0 Hcs]; subst.
    replace (c0 :: cs ++ [46] ++ format) with ((c0 :: cs) ++ [46] ++ format) by reflexivity.
    destruct (47 =? c0) eqn:E47. 
    + apply Z.eqb_eq in E47; lia.
    + assert (Hnot : ~ In 47 ((c0 :: cs) ++ [46] ++ format)).
      { intros Hin. apply in_app_or in Hin as [Hin|Hin].
        - destruct Hin as [Hin|Hin]; [lia|]. rewrite Forall_forall in Hcs. specialize (Hcs _ Hin); lia.
        - destruct Hin as [Hin|Hin]; [lia|contradiction]. }
      assert (Habs : (c0 =? 47) = false) by (apply Z.eqb_neq; lia).
      simpl app. cbv iota. rewrite Habs. unfold comps. rewrite split_on_none by exact Hnot. simpl filter.
      replace (eqb (c0 :: cs ++ 46 :: format) []) with false by reflexivity.
      replace (eqb (c0 :: cs ++ 46 :: format) [46]) with false.
      * reflexivity.
      * symmetry. destruct (eqb (c0 :: cs ++ 46 :: format) [46]) eqn:Eq; [|reflexivity].
        apply pystr_eqb_eq in Eq. destruct cs; [simpl in Hl; discriminate|]. discriminate.
  - intros Hnd. apply Hiff in Hnd. rewrite <- (length_map (fun r => r / 2 ^ 96) rs).
    apply NoDup_bounded; [lia| |exact Hnd]. rewrite Forall_forall. intros x Hx.
    apply in_map_iff in Hx as [r [<- Hr]]. apply Hrange, Hr.
Qed.

Lemma generate_cache_path_ids_witness :
  Forall (fun r => 0 <= r < 2 ^ 128) [0; 2 ^ 96] /\ ~ In 47 (s2z "mp3") /\
  NoDup (map (fun r => fst (generate_cache_path CD0 (s2z "mp3") r)) [0; 2 ^ 96]).
Proof.
  assert (H1 : Forall (fun r => 0 <= r < 2 ^ 128) [0; 2 ^ 96]) by (repeat constructor; vm_compute; discriminate).
  assert (H2 : ~ In 47 (s2z "mp3")) by (simpl; intros [H|[H|[H|H]]]; [discriminate H..|exact H]).
  split; [exact H1|]. split; [exact H2|].
  apply (proj2 (proj1 (proj2 (generate_cache_path_ids CD0 (s2z "mp3") [0; 2 ^ 96] H1 H2)))).
  vm_compute. constructor; [intros [H|H]; [discriminate H|exact H]|constructor; [intros []|constructor]].
Defined.

(** C7: a metadata file [<id>.json] whose content is not JSON is skipped:
    [get_by_id] on its id gives [None], [list_cached] (a total function:
    [_load_metadata] swallows every error) is the listing of the other
    records in the same order, every other record that loads to a truthy
    value is listed, and the order is newest first by modification time
    ([sorted_json] is a permutation of the glob, sorted by descending
    [st_mtime]). *)
Theorem list_cached_skips_invalid (CACHE_DIR : path) (w : world) (cache_id d : pystr) (m : Z) :
  let bad := CACHE_DIR ++ [cache_id ++ s2z ".json"] in
  ~ In 47 cache_id ->
  lookup w bad = Some (RegFile m d) -> loads d = None ->
  get_by_id CACHE_DIR w cache_id = None
  /\ list_cached CACHE_DIR w
     = flat_map (fun p => match load_metadata w p with
                          | Some md => if truthy md then [md] else []
                          | None => []
                          end)
                (filter (fun p => negb (path_eqb p bad)) (sorted_json CACHE_DIR w))
  /\ (forall p md, In p (glob_json CACHE_DIR w) -> load_metadata w p = Some md -> truthy md = true ->
        In md (list_cached CACHE_DIR w))
  /\ Permutation (sorted_json CACHE_DIR w) (glob_json CACHE_DIR w)
  /\ StronglySorted (fun p q => mtime_of w q <= mtime_of w p) (sorted_json CACHE_DIR w).
Proof.
  intros bad Hid Hlk Hd.
  assert (Hbad : load_metadata w bad = None) by (unfold load_metadata, read_text; rewrite Hlk; exact Hd).
  split; [|split; [|split; [|split]]].
  - unfold get_by_id. rewrite pjoin_name; [exact Hbad| | |].
    + intros Hin. apply in_app_or in Hin as [Hin|Hin]; [contradiction|].
      simpl in Hin; intuition discriminate.
    + destruct cache_id; discriminate.
    + destruct cache_id as [|c [|c' r]]; simpl; intros E; discriminate.
  - unfold list_cached. induction (sorted_json CACHE_DIR w) as [|p l IH]; [reflexivity|].
    simpl. destruct (path_eqb p bad) eqn:E; simpl; rewrite IH; [|reflexivity].
    apply path_eqb_eq in E; subst p. rewrite Hbad. reflexivity.
  - intros p md Hp Hl Ht. unfold list_cached. apply in_flat_map. exists p. split.
    + apply (Permutation_in _ (Permutation_sym (sort_desc_perm _ _))), Hp.
    + rewrite Hl, Ht. left; reflexivity.
  - apply sort_desc_perm.
  - apply sort_desc_sorted.
Qed.

Lemma list_cached_skips_invalid_witness :
  ~ In 47 (s2z "bad") /\ lookup w_bad (CD0 ++ [s2z "bad" ++ s2z ".json"]) = Some (RegFile 4 (s2z "{"))
  /\ loads (s2z "{") = None /\ get_by_id CD0 w_bad (s2z "bad") = None.
Proof.
  assert (H1 : ~ In 47 (s2z "bad")) by (simpl; intros [H|[H|[H|H]]]; [discriminate H..|exact H]).
  assert (H2 : lookup w_bad (CD0 ++ [s2z "bad" ++ s2z ".json"]) = Some (RegFile 4 (s2z "{")))
    by (vm_compute; reflexivity).
  assert (H3 : loads (s2z "{") = None) by (vm_compute; reflexivity).
  split; [exact H1|]. split; [exact H2|]. split; [exact H3|].
  exact (proj1 (list_cached_skips_invalid CD0 w_bad (s2z "bad") (s2z "{") 4 H1 H2 H3)).
Defined.

(** C5 (counterexample): an output file named like a metadata record in
    the cache directory adds a record to the glob of [*.json]. *)
Lemma synthesize_output_in_cache_dir :
  let out := pstr (CD0 ++ [s2z "new.json"]) in
  let (w', r) := Service.synthesize CD0 cwd0 Service.openai_provider env5 (s2z "hi") (Some out) None None None true w_play in
  r = Ok tt /\ glob_json CD0 w' <> glob_json CD0 w_play.
Proof. vm_compute. split; [reflexivity|discriminate]. Qed.

(** C5 (amended): with a non-empty [output_file], whatever [cache] is,
    [TTSService.synthesize] is exactly [self.provider.synthesize] on that
    target: the log gains the provider call and at most a write of the
    target, no process is run (no playback), no slot is allocated and no
    metadata is written; every path other than the target is unchanged,
    and when the target is not a [*.json] directly in the cache directory,
    the glob of metadata records and [list_cached] are unchanged. *)
Theorem synthesize_output_file (CACHE_DIR cwd : path) (P : Service.provider) (E : Service.env)
    (text out : pystr) (voice instructions response_format : option pystr) (cache : bool) (w : world) :
  out <> [] ->
  let (w', r) := Service.synthesize CACHE_DIR cwd P E text (Some out) voice instructions response_format cache w in
  (w', r) = Service.provider_synthesize cwd E (Some out) w
  /\ (log w' = log w ++ [ESynth (Some out)] \/ log w' = log w ++ [ESynth (Some out); EWrite (os_resolve (pjoin cwd out))])
  /\ (forall p, os_resolve p <> os_resolve (pjoin cwd out) -> lookup w' p = lookup w p)
  /\ (no_dotdot CACHE_DIR = true -> glob_match CACHE_DIR (os_resolve (pjoin cwd out)) = false ->
        glob_json CACHE_DIR w' = glob_json CACHE_DIR w /\ list_cached CACHE_DIR w' = list_cached CACHE_DIR w).
Proof.
  intros Hout.
  assert (Heq : Service.synthesize CACHE_DIR cwd P E text (Some out) voice instructions response_format cache w
                = Service.provider_synthesize cwd E (Some out) w)
    by (unfold Service.synthesize; destruct out; [congruence|reflexivity]).
  rewrite Heq. pose proof (provider_synthesize_effect cwd E (Some out) w) as Heff.
  destruct (Service.provider_synthesize cwd E (Some out) w) as [w' r].
  destruct Heff as [[[Hf [Hl _]]|[t [audio [Ht [_ [_ [_ [Hf Hl]]]]]]]] _].
  - split; [reflexivity|]. split; [left; exact Hl|]. split.
    + intros p _. apply lookup_files, Hf.
    + intros _ _. apply frame_same, Hf.
  - injection Ht as <-. split; [reflexivity|]. split; [right; exact Hl|]. split.
    + intros p Hp. destruct w' as [fs' l' c']; simpl in Hf; subst fs'. rewrite lookup_upsert.
      destruct (path_eqb (os_resolve (pjoin cwd out)) (os_resolve p)) eqn:E'; [|reflexivity].
      apply path_eqb_eq in E'. congruence.
    + intros Hc Hq. apply (frame_upsert _ _ _ _ _ Hf Hc Hq).
Qed.

Lemma synthesize_output_file_witness :
  s2z "out.mp3" <> [] /\
  (let (w', r) := Service.synthesize CD0 cwd0 Service.openai_provider env5 (s2z "hi") (Some (s2z "out.mp3"))
                    None None None true w_play in
   (w', r) = Service.provider_synthesize cwd0 env5 (Some (s2z "out.mp3")) w_play).
Proof.
  assert (H : s2z "out.mp3" <> []) by discriminate. split; [exact H|].
  pose proof (synthesize_output_file CD0 cwd0 Service.openai_provider env5 (s2z "hi") (s2z "out.mp3")
                None None None true w_play H) as T.
  destruct (Service.synthesize CD0 cwd0 Service.openai_provider env5 (s2z "hi") (Some (s2z "out.mp3"))
              None None None true w_play) as [w' r].
  exact (proj1 T).
Defined.

(** C10: on the cache-then-play path, when the provider raises or [afplay]
    does not exit with 0, the call fails before [save_metadata]: the only
    path written is the allocated slot [<id>.<format>] (no metadata file),
    every other path is unchanged, the slot keeps what the provider wrote
    (an orphan audio file), and the glob of records, [list_cached] and
    [get_by_id] on the new id are as before the call.  The format is one
    of [AUDIO_FORMATS], the [--format] choices of the command line. *)
Theorem synthesize_cache_failure (CACHE_DIR cwd : path) (P : Service.provider) (E : Service.env)
    (text : pystr) (voice instructions response_format : option pystr) (w : world) :
  canonical CACHE_DIR = true ->
  let fmt := match response_format with Some ((_ :: _) as f) => f | _ => s2z "mp3" end in
  mem fmt OpenAI.AUDIO_FORMATS = true ->
  Service.raises (Service.prov E) <> None \/ Service.afplay E <> PExit0 ->
  let cache_id := fst (generate_cache_path CACHE_DIR fmt (Service.draw E)) in
  let slot := CACHE_DIR ++ [cache_id ++ [46] ++ fmt] in
  let (w', r) := Service.synthesize CACHE_DIR cwd P E text None voice instructions response_format true w in
  (exists e, r = Err e)
  /\ (forall p, In (EWrite p) (log w') -> In (EWrite p) (log w) \/ p = slot)
  /\ (forall p, os_resolve p <> slot -> lookup w' p = lookup w p)
  /\ (forall audio, Service.writes (Service.prov E) = Some audio -> (forall m, lookup w slot <> Some (Folder m)) ->
        lookup w' slot = Some (RegFile (clock w) audio))
  /\ glob_json CACHE_DIR w' = glob_json CACHE_DIR w
  /\ list_cached CACHE_DIR w' = list_cached CACHE_DIR w
  /\ get_by_id CACHE_DIR w' cache_id = get_by_id CACHE_DIR w cache_id.
Proof.
  intros Hcd fmt Hfmt Hfail cache_id slot.
  destruct (cache_id_shape CACHE_DIR fmt (Service.draw E)) as [Hidl Hidd]. fold cache_id in Hidl, Hidd.
  assert (Hcid : fst (generate_cache_path CACHE_DIR fmt (Service.draw E)) = cache_id) by reflexivity.
  assert (Hslot : CACHE_DIR ++ [cache_id ++ [46] ++ fmt] = slot) by reflexivity.
  clearbody slot cache_id.
  pose proof (audio_formats_cases _ Hfmt) as Hf.
  destruct (slot_name_facts cache_id fmt Hidl Hidd Hf) as [Hn47 [Hnne [Hndot [Hncan [Hnjson Hnne2]]]]].
  assert (Hslot_can : canonical slot = true) by (rewrite <- Hslot, canonical_app, Hcd, Hncan; reflexivity).
  assert (Hslot_res : os_resolve slot = slot) by (apply os_resolve_id, canonical_no_dotdot, Hslot_can).
  assert (Hpath : snd (generate_cache_path CACHE_DIR fmt (Service.draw E)) = pstr slot).
  { unfold generate_cache_path in *; cbv zeta in *; cbn [fst snd] in *.
    rewrite Hcid. rewrite pjoin_name by assumption. exact (f_equal pstr Hslot). }
  assert (Hq : os_resolve (pjoin cwd (pstr slot)) = slot) by (rewrite pjoin_pstr by exact Hslot_can; exact Hslot_res).
  assert (Hglob : glob_match CACHE_DIR slot = false).
  { unfold glob_match. rewrite <- Hslot, firstn_app, Nat.sub_diag, firstn_O, app_nil_r, firstn_all.
    rewrite (proj2 (path_eqb_eq _ _) eq_refl), skipn_app, Nat.sub_diag, skipn_all. simpl. exact Hnjson. }
  assert (Hmeta : pjoin CACHE_DIR (cache_id ++ s2z ".json") = CACHE_DIR ++ [cache_id ++ s2z ".json"]).
  { apply pjoin_name.
    - intros Hin. apply in_app_or in Hin as [Hin|Hin]; [exact (hex_no47 _ Hidd Hin)|simpl in Hin; lia].
    - intros E'. apply (f_equal (@length Z)) in E'. rewrite length_app, Hidl in E'. discriminate.
    - intros E'. apply (f_equal (@length Z)) in E'. rewrite length_app, Hidl in E'. discriminate. }
  assert (Hmeta_res : os_resolve (CACHE_DIR ++ [cache_id ++ s2z ".json"]) <> slot).
  { rewrite os_resolve_id, <- Hslot.
    - intros E'. apply app_inv_head in E'. apply Hnne2. congruence.
    - unfold no_dotdot. rewrite forallb_app. apply andb_true_intro. split.
      + apply canonical_no_dotdot, Hcd.
      + simpl. destruct (eqb (cache_id ++ s2z ".json") [46; 46]) eqn:E'; [|reflexivity].
        apply pystr_eqb_eq in E'. apply (f_equal (@length Z)) in E'. rewrite length_app, Hidl in E'. discriminate. }
  unfold Service.synthesize. cbv zeta. fold fmt. cbn [truthy_opt negb].
  destruct (generate_cache_path CACHE_DIR fmt (Service.draw E)) as [cid cpath] eqn:Hgen.
  cbn [fst snd] in Hcid, Hpath. subst cid cpath.
  generalize (if negb (truthy_opt voice) then match Service.default_voice P with Some d => Some d | None => voice end else voice).
  intros voice'.
  pose proof (provider_synthesize_effect cwd E (Some (pstr slot)) w) as Heff.
  unfold bind at 1.
  destruct (Service.provider_synthesize cwd E (Some (pstr slot)) w) as [w1 r1].
  destruct Heff as [Hw1 Hraise].
  assert (Hw1' : (files w1 = files w /\ log w1 = log w ++ [ESynth (Some (pstr slot))]
                  /\ (forall audio, Service.writes (Service.prov E) = Some audio -> exists m, lookup w slot = Some (Folder m)))
                 \/ (exists audio, Service.writes (Service.prov E) = Some audio /\
                       (forall m, lookup w slot <> Some (Folder m)) /\
                       files w1 = upsert slot (RegFile (clock w) audio) (files w) /\
                       log w1 = log w ++ [ESynth (Some (pstr slot)); EWrite slot])).
  { destruct Hw1 as [[H1 [H2 H3]]|[t [audio [Ht [_ [Hw [Hnf [Hf1 Hl1]]]]]]]].
    { left. split; [exact H1|]. split; [exact H2|]. intros audio Haud.
      destruct (H3 (pstr slot) audio eq_refl ltac:(discriminate) Haud) as [m Hm].
      rewrite pjoin_pstr in Hm by exact Hslot_can. exists m. exact Hm. }
    right.
    injection Ht as <-. rewrite pjoin_pstr in Hnf by exact Hslot_can. rewrite Hq in Hf1, Hl1.
    exists audio. repeat split; assumption. }
  clear Hw1.
  (* [w''] is the final world, [evs] what is logged after the provider *)
  assert (Hfin : exists evs e, files (fst (match r1 with
                  | Ok a => (fun _ => _ <- run_proc [s2z "afplay"; pstr slot] (Service.afplay E) ;;
                                       save_metadata CACHE_DIR (Service.now_iso E) cache_id text voice' fmt
                                         (Service.class_name P) instructions) a w1
                  | Err e => (w1, Err e) end)) = files w1
                 /\ log (fst (match r1 with
                  | Ok a => (fun _ => _ <- run_proc [s2z "afplay"; pstr slot] (Service.afplay E) ;;
                                       save_metadata CACHE_DIR (Service.now_iso E) cache_id text voice' fmt
                                         (Service.class_name P) instructions) a w1
                  | Err e => (w1, Err e) end)) = log w1 ++ evs
                 /\ (forall p, ~ In (EWrite p) evs)
                 /\ snd (match r1 with
                  | Ok a => (fun _ => _ <- run_proc [s2z "afplay"; pstr slot] (Service.afplay E) ;;
                                       save_metadata CACHE_DIR (Service.now_iso E) cache_id text voice' fmt
                                         (Service.class_name P) instructions) a w1
                  | Err e => (w1, Err e) end) = Err e).
  { destruct r1 as [[]|e].
    - assert (Ha : Service.afplay E <> PExit0).
      { destruct Hfail as [Hfail|Hfail]; [destruct (Hraise Hfail); discriminate|exact Hfail]. }
      cbv beta. unfold run_proc, bind, emit, ret, throw.
      destruct (Service.afplay E); [congruence| | |]; cbn [fst snd files log clock];
        (exists [ERun [s2z "afplay"; pstr slot]]; eexists; split; [reflexivity|]; split; [reflexivity|];
         split; [intros p [H|[]]; discriminate|reflexivity]).
    - exists [], e. cbn [fst snd]. split; [reflexivity|]. split; [symmetry; apply app_nil_r|].
      split; [intros p []|reflexivity]. }
  destruct (match r1 with
            | Ok a => (fun _ => _ <- run_proc [s2z "afplay"; pstr slot] (Service.afplay E) ;;
                                 save_metadata CACHE_DIR (Service.now_iso E) cache_id text voice' fmt
                                   (Service.class_name P) instructions) a w1
            | Err e => (w1, Err e) end) as [w' r].
  cbn [fst snd] in Hfin. destruct Hfin as [evs [e [Hfw [Hlw [Hevs Hr]]]]].
  split; [exists e; exact Hr|].
  assert (Hget : forall w'' : world, (forall p, os_resolve p <> slot -> lookup w'' p = lookup w p) ->
            get_by_id CACHE_DIR w'' cache_id = get_by_id CACHE_DIR w cache_id).
  { intros w'' H. unfold get_by_id, load_metadata, read_text. rewrite Hmeta, H by exact Hmeta_res. reflexivity. }
  destruct Hw1' as [[Hf1 [Hl1 Hnw]]|[audio [Haud [Hnf [Hf1 Hl1]]]]].
  - assert (Hff : files w' = files w) by congruence.
    assert (Hlk : forall p, lookup w' p = lookup w p) by (intros; apply lookup_files, Hff).
    split.
    { intros p Hin. rewrite Hlw, Hl1, <- app_assoc in Hin. apply in_app_or in Hin as [Hin|[Hin|Hin]];
        [left; exact Hin|discriminate|exfalso; exact (Hevs p Hin)]. }
    split; [intros p _; apply Hlk|].
    split; [intros audio Haud Hnf; destruct (Hnw audio Haud) as [m Hm]; exfalso; exact (Hnf m Hm)|].
    destruct (frame_same CACHE_DIR w w' Hff) as [Hg Hl].
    split; [exact Hg|]. split; [exact Hl|]. apply Hget. intros; apply Hlk.
  - assert (Hff : files w' = upsert slot (RegFile (clock w) audio) (files w)) by congruence.
    assert (Hlk : forall p, os_resolve p <> slot -> lookup w' p = lookup w p).
    { intros p Hp. destruct w' as [fs' l' c']; simpl in Hff; subst fs'. rewrite lookup_upsert.
      destruct (path_eqb slot (os_resolve p)) eqn:E'; [apply path_eqb_eq in E'; congruence|reflexivity]. }
    split.
    { intros p Hin. rewrite Hlw, Hl1, <- app_assoc in Hin. apply in_app_or in Hin as [Hin|[Hin|[Hin|Hin]]];
        [left; exact Hin|discriminate|injection Hin as <-; right; reflexivity|exfalso; exact (Hevs p Hin)]. }
    split; [exact Hlk|].
    split.
    { intros audio' Haud' _. rewrite Haud in Haud'. injection Haud' as <-.
      destruct w' as [fs' l' c']; simpl in Hff; subst fs'. rewrite lookup_upsert, Hslot_res.
      rewrite (proj2 (path_eqb_eq _ _) eq_refl). reflexivity. }
    destruct (frame_upsert CACHE_DIR w w' slot _ Hff (canonical_no_dotdot _ Hcd) Hglob) as [Hg Hl].
    split; [exact Hg|]. split; [exact Hl|]. apply Hget, Hlk.
Qed.

Lemma synthesize_cache_failure_witness :
  canonical CD0 = true /\ mem (s2z "mp3") OpenAI.AUDIO_FORMATS = true /\
  (Service.raises (Service.prov env10) <> None \/ Service.afplay env10 <> PExit0) /\
  exists e, snd (Service.synthesize CD0 cwd0 Service.openai_provider env10 (s2z "hi") None None None None true w_play)
            = Err e.
Proof.
  assert (H1 : canonical CD0 = true) by (vm_compute; reflexivity).
  assert (H2 : mem (s2z "mp3") OpenAI.AUDIO_FORMATS = true) by (vm_compute; reflexivity).
  assert (H3 : Service.raises (Service.prov env10) <> None \/ Service.afplay env10 <> PExit0)
    by (left; discriminate).
  split; [exact H1|]. split; [exact H2|]. split; [exact H3|].
  pose proof (synthesize_cache_failure CD0 cwd0 Service.openai_provider env10 (s2z "hi") None None None w_play
                H1 H2 H3) as T.
  destruct (Service.synthesize CD0 cwd0 Service.openai_provider env10 (s2z "hi") None None None None true w_play)
    as [w' r].
  exact (proj1 T).
Defined.

(** C1 (counterexample): a record whose ["audio_file"] names another
    record makes the pass unlink that record as well: of twelve records,
    nine remain, not [min(12, 10) = 10]. *)
Lemma init_evicts_audio_alias :
  let (w', r) := init CD0 w_alias in
  r = Ok tt /\ length (glob_json CD0 w') = 9%nat
  /\ Nat.min (length (glob_json CD0 w_alias)) MAX_CACHE_SIZE = 10%nat.
Proof. vm_compute. split; [reflexivity|split; reflexivity]. Qed.

(** C1: when the cache directory exists and has no ['..'] part, the file
    system has one entry per path, and every record selected for eviction
    is [evictable] (a regular file whose content does not load, is falsy,
    or is a dict whose ["audio_file"] string names neither a folder nor a
    [*.json] entry of the cache directory), construction succeeds; the
    records left are, up to order, the first [MAX_CACHE_SIZE] of the
    listing sorted newest first, so there are
    [min(existing, MAX_CACHE_SIZE)] of them; no removed record is newer
    than a retained one; retained records are untouched. *)
Theorem init_bounded_retention (CACHE_DIR : path) (w : world) (m : Z) :
  no_dotdot CACHE_DIR = true -> lookup w CACHE_DIR = Some (Folder m) -> NoDup (map fst (files w)) ->
  forallb (evictable CACHE_DIR w) (skipn MAX_CACHE_SIZE (sorted_json CACHE_DIR w)) = true ->
  let (w', r) := init CACHE_DIR w in
  r = Ok tt
  /\ length (glob_json CACHE_DIR w') = Nat.min (length (glob_json CACHE_DIR w)) MAX_CACHE_SIZE
  /\ Permutation (glob_json CACHE_DIR w') (firstn MAX_CACHE_SIZE (sorted_json CACHE_DIR w))
  /\ (forall p q, In p (glob_json CACHE_DIR w') -> In q (glob_json CACHE_DIR w) ->
        ~ In q (glob_json CACHE_DIR w') -> mtime_of w q <= mtime_of w p)
  /\ (forall p, In p (glob_json CACHE_DIR w') -> lookup w' p = lookup w p).
Proof.
  intros Hcd Hdir Hnd Hev. rewrite (init_removes CACHE_DIR w m Hcd Hdir Hnd Hev).
  destruct (sorted_json_facts CACHE_DIR w Hnd) as [P [HS Hg]].
  set (S := sorted_json CACHE_DIR w) in *. set (G := glob_json CACHE_DIR w) in *.
  set (L := skipn MAX_CACHE_SIZE S). set (E := evict_removals CACHE_DIR w [] L).
  set (F := firstn MAX_CACHE_SIZE S).
  assert (HSFL : S = F ++ L) by (symmetry; apply firstn_skipn).
  assert (HnFL : NoDup (F ++ L)) by (rewrite <- HSFL; exact HS).
  assert (HGE : forall p, In p G -> existsb (path_eqb p) E = existsb (path_eqb p) L).
  { intros p Hp. apply eq_iff_eq_true. rewrite !existsb_path_In. split.
    - intros H. apply evict_removals_in in H as [H|[q [Hq [Ha _]]]]; [exact H|exfalso].
      assert (Hev' : evictable CACHE_DIR w q = true) by (rewrite forallb_forall in Hev; apply Hev, Hq).
      destruct (evictable_target CACHE_DIR w q p Hev' Ha) as [Hgp _].
      rewrite (glob_json_match CACHE_DIR w p Hp) in Hgp. discriminate.
    - apply evict_removals_all. }
  assert (Hglob : glob_json CACHE_DIR (removed w E) = filter (fun p => negb (existsb (path_eqb p) L)) G).
  { rewrite glob_removed. apply filter_ext_in. intros p Hp. rewrite HGE by exact Hp. reflexivity. }
  assert (Hperm : Permutation (glob_json CACHE_DIR (removed w E)) F).
  { rewrite Hglob. eapply Permutation_trans; [apply Permutation_filter_compat, Permutation_sym, P|].
    rewrite HSFL, filter_app, (filter_all_false _ L), app_nil_r.
    - rewrite forallb_filter_id; [reflexivity|]. apply forallb_forall. intros x Hx.
      apply negb_true_iff, existsb_path_notIn. exact (NoDup_app_disj F L x HnFL Hx).
    - intros x Hx. apply negb_false_iff, existsb_path_In, Hx. }
  split; [reflexivity|]. split; [|split; [exact Hperm|split]].
  - rewrite (Permutation_length Hperm). unfold F. rewrite length_firstn, <- (Permutation_length P).
    apply Nat.min_comm.
  - intros p q Hp Hq Hq'. apply (Permutation_in _ Hperm) in Hp.
    assert (HqL : In q L).
    { apply (Permutation_in _ (Permutation_sym P)) in Hq. rewrite HSFL in Hq.
      apply in_app_or in Hq as [Hq|Hq]; [|exact Hq]. exfalso. apply Hq'.
      exact (Permutation_in _ (Permutation_sym Hperm) Hq). }
    pose proof (sort_desc_sorted (mtime_of w) G) as Hsorted. change (StronglySorted (fun a b => mtime_of w b <= mtime_of w a) S) in Hsorted. rewrite HSFL in Hsorted.
    exact (StronglySorted_app_rel _ F L p q Hsorted Hp HqL).
  - intros p Hp. rewrite lookup_removed.
    assert (Hgp : glob_match CACHE_DIR p = true) by (apply (glob_json_match CACHE_DIR (removed w E)), Hp).
    rewrite (os_resolve_id p) by (apply (glob_no_dotdot CACHE_DIR); assumption).
    rewrite glob_removed in Hp. apply filter_In in Hp as [_ Hp]. apply negb_true_iff in Hp. rewrite Hp.
    reflexivity.
Qed.

Lemma init_bounded_retention_witness :
  no_dotdot CD0 = true /\ lookup w_full CD0 = Some (Folder 0) /\ NoDup (map fst (files w_full))
  /\ forallb (evictable CD0 w_full) (skipn MAX_CACHE_SIZE (sorted_json CD0 w_full)) = true
  /\ length (glob_json CD0 (fst (init CD0 w_full))) = Nat.min (length (glob_json CD0 w_full)) MAX_CACHE_SIZE.
Proof.
  assert (H1 : no_dotdot CD0 = true) by (vm_compute; reflexivity).
  assert (H2 : lookup w_full CD0 = Some (Folder 0)) by (vm_compute; reflexivity).
  assert (H3 : NoDup (map fst (files w_full))) by (apply nodup_paths_NoDup; vm_compute; reflexivity).
  assert (H4 : forallb (evictable CD0 w_full) (skipn MAX_CACHE_SIZE (sorted_json CD0 w_full)) = true)
    by (vm_compute; reflexivity).
  split; [exact H1|]. split; [exact H2|]. split; [exact H3|]. split; [exact H4|].
  pose proof (init_bounded_retention CD0 w_full 0 H1 H2 H3 H4) as T.
  destruct (init CD0 w_full) as [w' r]. exact (proj1 (proj2 T)).
Defined.

(** C2 (counterexample): the oldest record [x0.json] was cut short while
    being written, so it does not load; the pass unlinks it and leaves its
    audio file [x0.mp3] behind. *)
Lemma init_orphans_audio :
  In (CD0 ++ [s2z "x0.json"]) (skipn MAX_CACHE_SIZE (sorted_json CD0 w_trunc))
  /\ lookup w_trunc (CD0 ++ [s2z "x0.mp3"]) = Some (RegFile 1 (s2z "ID3"))
  /\ let (w', r) := init CD0 w_trunc in
     r = Ok tt /\ lookup w' (CD0 ++ [s2z "x0.json"]) = None
     /\ lookup w' (CD0 ++ [s2z "x0.mp3"]) = Some (RegFile 1 (s2z "ID3")).
Proof.
  split; [vm_compute; right; left; reflexivity|]. split; [vm_compute; reflexivity|].
  vm_compute. split; [reflexivity|split; reflexivity].
Qed.

(** C2: under the conditions of C1, construction succeeds; every record
    selected for eviction is gone; when it loads to a truthy dict naming an
    audio file that exists, that file is gone too and was unlinked before
    the record; nothing else is removed than the selected records and those
    audio files. *)
Theorem init_evicts_pairs (CACHE_DIR : path) (w : world) (m : Z) :
  no_dotdot CACHE_DIR = true -> lookup w CACHE_DIR = Some (Folder m) -> NoDup (map fst (files w)) ->
  forallb (evictable CACHE_DIR w) (skipn MAX_CACHE_SIZE (sorted_json CACHE_DIR w)) = true ->
  let (w', r) := init CACHE_DIR w in
  r = Ok tt
  /\ (forall p, In p (skipn MAX_CACHE_SIZE (sorted_json CACHE_DIR w)) ->
        lookup w' p = None
        /\ forall a, audio_target CACHE_DIR w p = Some a -> lookup w a <> None ->
             lookup w' a = None
             /\ exists l1 l2, log w' = l1 ++ EUnlink a :: l2 /\ In (EUnlink p) l2)
  /\ (forall x, lookup w x <> None -> lookup w' x = None ->
        In (os_resolve x) (skipn MAX_CACHE_SIZE (sorted_json CACHE_DIR w))
        \/ exists p, In p (skipn MAX_CACHE_SIZE (sorted_json CACHE_DIR w))
                     /\ audio_target CACHE_DIR w p = Some (os_resolve x)).
Proof.
  intros Hcd Hdir Hnd Hev. rewrite (init_removes CACHE_DIR w m Hcd Hdir Hnd Hev).
  destruct (sorted_json_facts CACHE_DIR w Hnd) as [P [HS Hg]].
  set (S := sorted_json CACHE_DIR w) in *.
  set (L := skipn MAX_CACHE_SIZE S). set (E := evict_removals CACHE_DIR w [] L).
  split; [reflexivity|split].
  - intros p Hp. split.
    + rewrite lookup_removed.
      assert (Hgp : glob_match CACHE_DIR p = true).
      { apply Hg. rewrite <- (firstn_skipn MAX_CACHE_SIZE S). apply in_or_app; right; exact Hp. }
      rewrite (os_resolve_id p) by (apply (glob_no_dotdot CACHE_DIR); assumption).
      replace (existsb (path_eqb p) E) with true; [reflexivity|].
      symmetry. apply existsb_path_In, evict_removals_all, Hp.
    + intros a Ha La.
      destruct (evict_removals_order CACHE_DIR w [] L p a Hp Ha La) as [R1 [R2 [HE Hin]]].
      simpl in HE. fold E in HE. split.
      * rewrite lookup_removed, (audio_target_resolved CACHE_DIR w p a Ha).
        replace (existsb (path_eqb a) E) with true; [reflexivity|].
        symmetry. apply existsb_path_In. rewrite HE. apply in_or_app; right; left; reflexivity.
      * exists (log w ++ map EUnlink R1), (map EUnlink R2). split.
        -- simpl. rewrite HE, map_app, <- app_assoc. reflexivity.
        -- apply in_map, Hin.
  - intros x Hx Hx'. rewrite lookup_removed in Hx'.
    destruct (existsb (path_eqb (os_resolve x)) E) eqn:Ex; [|contradiction].
    apply existsb_path_In in Ex. apply evict_removals_in in Ex as [H|[p [Hp [Ha _]]]]; [left; exact H|].
    right. exists p. split; assumption.
Qed.

Lemma init_evicts_pairs_witness :
  no_dotdot CD0 = true /\ lookup w_full CD0 = Some (Folder 0) /\ NoDup (map fst (files w_full))
  /\ forallb (evictable CD0 w_full) (skipn MAX_CACHE_SIZE (sorted_json CD0 w_full)) = true
  /\ lookup (fst (init CD0 w_full)) (CD0 ++ [s2z "x0.mp3"]) = None.
Proof.
  assert (H1 : no_dotdot CD0 = true) by (vm_compute; reflexivity).
  assert (H2 : lookup w_full CD0 = Some (Folder 0)) by (vm_compute; reflexivity).
  assert (H3 : NoDup (map fst (files w_full))) by (apply nodup_paths_NoDup; vm_compute; reflexivity).
  assert (H4 : forallb (evictable CD0 w_full) (skipn MAX_CACHE_SIZE (sorted_json CD0 w_full)) = true)
    by (vm_compute; reflexivity).
  assert (Hp : In (CD0 ++ [s2z "x0.json"]) (skipn MAX_CACHE_SIZE (sorted_json CD0 w_full)))
    by (vm_compute; right; left; reflexivity).
  assert (Ha : audio_target CD0 w_full (CD0 ++ [s2z "x0.json"]) = Some (CD0 ++ [s2z "x0.mp3"]))
    by (vm_compute; reflexivity).
  assert (La : lookup w_full (CD0 ++ [s2z "x0.mp3"]) <> None) by (vm_compute; discriminate).
  split; [exact H1|]. split; [exact H2|]. split; [exact H3|]. split; [exact H4|].
  pose proof (init_evicts_pairs CD0 w_full 0 H1 H2 H3 H4) as T.
  destruct (init CD0 w_full) as [w' r].
  exact (proj1 (proj2 (proj1 (proj2 T) _ Hp) _ Ha La)).
Defined.

(** C6 (counterexample): a text holding the UTF-16 surrogate pair
    U+D83D U+DE00 is written by [json.dump] as two backslash-u escapes, and
    [json.loads] joins them into the single code point U+1F600, so the text
    read back by [get_by_id] differs from the text committed. *)
Lemma save_metadata_joins_surrogates :
  snd (save_metadata CD0 (s2z "2026-10-16T10:00:00.000000") (s2z "e1f2a3b4") [55357; 56832] None
         (s2z "mp3") (s2z "OpenAITTSProvider") None w_play) = Ok tt
  /\ get_by_id CD0 (fst (save_metadata CD0 (s2z "2026-10-16T10:00:00.000000") (s2z "e1f2a3b4")
                          [55357; 56832] None (s2z "mp3") (s2z "OpenAITTSProvider") None w_play))
        (s2z "e1f2a3b4")
      = Some (JObj [(s2z "id", JStr (s2z "e1f2a3b4"));
                    (s2z "timestamp", JStr (s2z "2026-10-16T10:00:00.000000"));
                    (s2z "text", JStr [128512]); (s2z "voice", JNull); (s2z "format", JStr (s2z "mp3"));
                    (s2z "provider", JStr (s2z "OpenAITTSProvider")); (s2z "instructions", JNull);
                    (s2z "audio_file", JStr (s2z "e1f2a3b4.mp3"))]).
Proof. split; vm_compute; reflexivity. Qed.

(** C6 (amended): when the id, timestamp, text, voice, format, provider and
    instructions are strings in which no high surrogate comes right before a
    low surrogate (voice and instructions may be [None]), and [save_metadata]
    succeeds, then [get_by_id] with the same id returns the dict with exactly
    the committed fields: id, timestamp (the one passed in, i.e. the
    [isoformat()] of the save time), text, voice, format, provider and
    instructions, [None] read back as [null], and ["audio_file"] equal to
    [<id>.<format>]. *)
Theorem save_metadata_roundtrip (CACHE_DIR : path) (timestamp cache_id text : pystr) (voice : option pystr)
    (format provider : pystr) (instructions : option pystr) (w w' : world) :
  no_surrogate_pair cache_id = true -> no_surrogate_pair timestamp = true -> no_surrogate_pair text = true ->
  match voice with Some v => no_surrogate_pair v = true | None => True end ->
  no_surrogate_pair format = true -> no_surrogate_pair provider = true ->
  match instructions with Some i => no_surrogate_pair i = true | None => True end ->
  save_metadata CACHE_DIR timestamp cache_id text voice format provider instructions w = (w', Ok tt) ->
  get_by_id CACHE_DIR w' cache_id =
  Some (JObj [(s2z "id", JStr cache_id); (s2z "timestamp", JStr timestamp); (s2z "text", JStr text);
              (s2z "voice", opt_json voice); (s2z "format", JStr format); (s2z "provider", JStr provider);
              (s2z "instructions", opt_json instructions);
              (s2z "audio_file", JStr (cache_id ++ [46] ++ format))]).
Proof.
  intros Hid Hts Htx Hv Hf Hp Hi Hsave.
  unfold save_metadata, write_file in Hsave.
  set (p := pjoin CACHE_DIR (cache_id ++ s2z ".json")) in *.
  set (md := metadata_record cache_id timestamp text voice format provider instructions) in *.
  assert (Hw : w' = mkWorld (upsert (os_resolve p) (RegFile (clock w) (dump_flat md)) (files w))
                            (log w ++ [EWrite (os_resolve p)]) (clock w + 1)).
  { destruct (lookup w p) as [[]|]; congruence. }
  subst w'. unfold get_by_id, load_metadata, read_text. fold p.
  rewrite lookup_upsert, (proj2 (path_eqb_eq _ _) eq_refl).
  rewrite loads_dump_flat; [reflexivity|unfold md; discriminate|].
  unfold md, metadata_record.
  repeat apply Forall_cons; try apply Forall_nil.
  all: split; [simpl; reflexivity|cbn [snd]]; try assumption.
  apply nsp_app_sep; [exact Hid|exact Hf|lia|reflexivity|reflexivity].
Qed.

(** Witness of C6 on an id saved next to the entries of [w_play]. *)
Lemma save_metadata_roundtrip_witness :
  save_metadata CD0 (s2z "2026-10-16T10:00:00.000000") (s2z "e1f2a3b4") (s2z "hello") (Some (s2z "onyx"))
      (s2z "mp3") (s2z "OpenAITTSProvider") None w_play
    = (fst (save_metadata CD0 (s2z "2026-10-16T10:00:00.000000") (s2z "e1f2a3b4") (s2z "hello")
              (Some (s2z "onyx")) (s2z "mp3") (s2z "OpenAITTSProvider") None w_play), Ok tt)
  /\ get_by_id CD0 (fst (save_metadata CD0 (s2z "2026-10-16T10:00:00.000000") (s2z "e1f2a3b4") (s2z "hello")
                          (Some (s2z "onyx")) (s2z "mp3") (s2z "OpenAITTSProvider") None w_play))
        (s2z "e1f2a3b4")
      = Some (JObj [(s2z "id", JStr (s2z "e1f2a3b4"));
                    (s2z "timestamp", JStr (s2z "2026-10-16T10:00:00.000000"));
                    (s2z "text", JStr (s2z "hello")); (s2z "voice", opt_json (Some (s2z "onyx")));
                    (s2z "format", JStr (s2z "mp3")); (s2z "provider", JStr (s2z "OpenAITTSProvider"));
                    (s2z "instructions", opt_json None);
                    (s2z "audio_file", JStr (s2z "e1f2a3b4" ++ [46] ++ s2z "mp3"))]).
Proof.
  assert (Hs : save_metadata CD0 (s2z "2026-10-16T10:00:00.000000") (s2z "e1f2a3b4") (s2z "hello")
                 (Some (s2z "onyx")) (s2z "mp3") (s2z "OpenAITTSProvider") None w_play
               = (fst (save_metadata CD0 (s2z "2026-10-16T10:00:00.000000") (s2z "e1f2a3b4") (s2z "hello")
                         (Some (s2z "onyx")) (s2z "mp3") (s2z "OpenAITTSProvider") None w_play), Ok tt))
    by (vm_compute; reflexivity).
  split; [exact Hs|].
  apply (save_metadata_roundtrip CD0 _ _ _ _ _ _ _ w_play);
    [vm_compute; reflexivity|vm_compute; reflexivity|vm_compute; reflexivity|vm_compute; reflexivity
    |vm_compute; reflexivity|vm_compute; reflexivity|exact I|exact Hs].
Defined.

End Claims.

(** ** Further properties of the code *)
Module Extras.
Import Cli.
Lemma split_on_join_sep c p : p <> [] -> Forall (fun x => ~ In c x) p -> split_on c (join [c] p) = p.
Proof.
  induction p as [|x p IH]; intros Hne H; [congruence|].
  inversion H as [|? ? Hx Hp]; subst. destruct p as [|y p'].
  - simpl. apply split_on_none, Hx.
  - change (join [c] (x :: y :: p')) with (x ++ c :: join [c] (y :: p')).
    rewrite split_on_app by exact Hx. rewrite IH by (discriminate || exact Hp). reflexivity.
Qed.






Lemma lstrip_id s : (s = [] \/ py_isspace (hd 0 s) = false) -> lstrip s = s.
Proof. intros [->|H]; [reflexivity|]. destruct s as [|c s]; [reflexivity|]. simpl in *. rewrite H. reflexivity. Qed.

Lemma last_rev {A} (x : list A) d : last (rev x) d = hd d x.
Proof. destruct x; [reflexivity|]. simpl. apply last_last. Qed.

Lemma hd_rev {A} (x : list A) d : hd d (rev x) = last x d.
Proof. rewrite <- (rev_involutive x) at 2. symmetry. apply last_rev. Qed.


Lemma strip_id s : s <> [] -> py_isspace (hd 0 s) = false -> py_isspace (last s 0) = false -> strip s = s.
Proof.
  intros Hne Hh Hl. unfold strip, rstrip. rewrite (lstrip_id s) by (right; exact Hh).
  rewrite (lstrip_id (rev s)); [apply rev_involutive|]. right. rewrite hd_rev. exact Hl.
Qed.


Lemma translate_id s : ~ In 13 s -> translate_newlines s = s.
Proof.
  intros H. unfold translate_newlines.
  assert (E : crlf_to_lf s = s).
  { induction s as [|c s IH]; [reflexivity|].
    assert (Hc : c <> 13) by (intro; apply H; left; congruence).
    simpl. apply Z.eqb_neq in Hc. rewrite Hc. f_equal. apply IH. intro; apply H; right; assumption. }
  rewrite E. clear E. induction s as [|c s IH]; [reflexivity|]. simpl.
  assert (Hc : c <> 13) by (intro; apply H; left; congruence).
  apply Z.eqb_neq in Hc. rewrite Hc. f_equal. apply IH. intro; apply H; right; assumption.
Qed.

Lemma in_join {sep : pystr} {L : list pystr} a : In a (join sep L) -> In a sep \/ exists x, In x L /\ In a x.
Proof.
  induction L as [|x L IH]; [intros []|]. intros H.
  destruct L as [|y L']; [right; exists x; split; [left; reflexivity|exact H]|].
  change (join sep (x :: y :: L')) with (x ++ sep ++ join sep (y :: L')) in H.
  apply in_app_or in H as [H|H]; [right; exists x; split; [left; reflexivity|exact H]|].
  apply in_app_or in H as [H|H]; [left; exact H|].
  destruct (IH H) as [Hs|[z [Hz Ha]]]; [left; exact Hs|right; exists z; split; [right; exact Hz|exact Ha]].
Qed.


Lemma join_ends (sep : pystr) L : L <> [] -> Forall voice_line L ->
  join sep L <> [] /\ py_isspace (hd 0 (join sep L)) = false /\ py_isspace (last (join sep L) 0) = false.
Proof.
  induction L as [|x L IH]; intros Hne H; [congruence|].
  inversion H as [|? ? [Hx [Hh [Hl _]]] HL]; subst.
  destruct L as [|y L']; [split; [|split]; assumption|].
  destruct (IH ltac:(discriminate) HL) as [J1 [J2 J3]].
  change (join sep (x :: y :: L')) with (x ++ sep ++ join sep (y :: L')).
  split; [destruct x; [congruence|discriminate]|]. split.
  - destruct x; [congruence|exact Hh].
  - rewrite app_assoc. destruct (join sep (y :: L')) as [|z u] eqn:Ej using rev_ind; [congruence|].
    rewrite app_assoc, !last_last. rewrite last_last in J3. exact J3.
Qed.



(** X3: when [say -v '?'] prints the lines [L], each non-empty, stripped
    and free of line breaks, each followed by a newline, [list_voices]
    returns exactly [L]. *)
Theorem say_list_voices_roundtrip (L : list pystr) w :
  Forall voice_line L ->
  snd (MacOS.list_voices (MacOS.SayOk (join [10] L ++ [10])) w) = Ok L.
Proof.
  intros HL. cbn [MacOS.list_voices bind emit ret snd].
  rewrite translate_id.
  2:{ intros H. apply in_app_or in H as [H|[H|[]]]; [|discriminate].
      destruct (in_join _ H) as [[E|[]]|[x [Hx Ha]]]; [discriminate|].
      rewrite Forall_forall in HL. destruct (HL x Hx) as [_ [_ [_ [_ N]]]]. exact (N Ha). }
  destruct L as [|x L']; [reflexivity|].
  destruct (join_ends [10] (x :: L') ltac:(discriminate) HL) as [J1 [J2 J3]].
  assert (Hs : strip (join [10] (x :: L') ++ [10]) = join [10] (x :: L')).
  { unfold strip, rstrip. rewrite (lstrip_id (join [10] (x :: L') ++ [10]))
      by (right; destruct (join [10] (x :: L')); [congruence|exact J2]).
    rewrite rev_app_distr. cbn [rev app lstrip]. replace (py_isspace 10) with true by reflexivity.
    rewrite lstrip_id by (right; rewrite hd_rev; exact J3). apply rev_involutive. }
  rewrite Hs, split_on_join_sep.
  - cbn [snd]. f_equal. clear Hs J1 J2 J3. induction HL as [|v l [Hv [Hh [Hl _]]] _ IH]; [reflexivity|].
    cbn [flat_map]. rewrite strip_id by assumption. destruct v; [congruence|]. cbn [app]. f_equal. exact IH.
  - discriminate.
  - eapply Forall_impl; [|exact HL]. intros v [_ [_ [_ [N _]]]]. exact N.
Qed.



Lemma translate_app_no13 a b : ~ In 13 a -> translate_newlines (a ++ b) = a ++ translate_newlines b.
Proof.
  intros H. unfold translate_newlines. induction a as [|c a IH]; [reflexivity|].
  assert (Hc : c <> 13) by (intro; apply H; left; congruence).
  cbn [app crlf_to_lf]. apply Z.eqb_neq in Hc. rewrite Hc. cbn [map]. rewrite Hc. cbn [app].
  f_equal. apply IH. intro; apply H; right; assumption.
Qed.

Lemma lstrip_app x y : (exists c, In c x /\ py_isspace c = false) -> lstrip (x ++ y) = lstrip x ++ y.
Proof.
  induction x as [|c x IH]; intros [d [Hd Hs]]; [destruct Hd|]. simpl.
  destruct (py_isspace c) eqn:E; [|reflexivity].
  apply IH. destruct Hd as [<-|Hd]; [congruence|exists d; split; assumption].
Qed.

Lemma rstrip_app x y : (exists c, In c y /\ py_isspace c = false) -> rstrip (x ++ y) = x ++ rstrip y.
Proof.
  intros H. unfold rstrip. rewrite rev_app_distr, lstrip_app, rev_app_distr, rev_involutive; [reflexivity|].
  destruct H as [c [Hc Hs]]. exists c. split; [apply in_rev; rewrite rev_involutive; exact Hc|exact Hs].
Qed.

Lemma fzf_lines_nth py_str iso items lines i item :
  fzf_lines py_str iso items = COk lines -> nth_error items i = Some item ->
  exists line, nth_error lines i = Some line /\ fzf_line py_str iso item = COk line.
Proof.
  revert lines i. induction items as [|it items IH]; intros lines i H Hi; [destruct i; discriminate|].
  cbn [fzf_lines rbind] in H. destruct (fzf_line py_str iso it) as [l|e] eqn:E1; [|discriminate].
  destruct (fzf_lines py_str iso items) as [ls|e] eqn:E2; [|discriminate]. injection H as <-.
  destruct i as [|i]; cbn in Hi |- *.
  - injection Hi as <-. exists l. split; [reflexivity|exact E1].
  - exact (IH ls i eq_refl Hi).
Qed.

Lemma fzf_line_shape py_str iso item line idv :
  fzf_line py_str iso item = COk line -> item_get item (s2z "id") = COk idv ->
  exists rest, line = fstr py_str idv ++ 9 :: rest /\ In 45 rest.
Proof.
  unfold fzf_line, rbind. intros H Hid.
  destruct (item_get item (s2z "timestamp")) as [ts|]; [|discriminate].
  destruct (match ts with JStr s => _ | _ => _ end) as [t|]; [|discriminate].
  destruct (item_get item (s2z "voice")) as [v|]; [|discriminate].
  destruct (item_get item (s2z "text")) as [tx|]; [|discriminate].
  destruct (match tx with JStr s => _ | _ => _ end) as [txt|]; [|discriminate].
  rewrite Hid in H. injection H as <-.
  eexists. split; [reflexivity|]. apply in_or_app. right. simpl. right. left. reflexivity.
Qed.

Lemma crlf_keep a s : a <> 13 -> In a s -> In a (crlf_to_lf s).
Proof.
  intros Ha. remember (length s) as n. revert s Heqn. induction n as [n IH] using lt_wf_ind. intros s -> H.
  destruct s as [|c r]; [destruct H|]. simpl.
  destruct (c =? 13) eqn:E.
  - apply Z.eqb_eq in E. subst c. destruct H as [H|H]; [congruence|].
    destruct r as [|d r']; [destruct H|]. destruct (d =? 10) eqn:D.
    + apply Z.eqb_eq in D; subst d. destruct H as [<-|H]; [left; reflexivity|].
      right. apply (IH (length r')); [simpl; lia|reflexivity|exact H].
    + right. apply (IH (length (d :: r'))); [simpl; lia|reflexivity|exact H].
  - destruct H as [<-|H]; [left; reflexivity|].
    right. apply (IH (length r)); [simpl; lia|reflexivity|exact H].
Qed.

(** X4: [play_cached] without an id, when [fzf] is installed, offers one
    line per cached record, in the order of [list_cached], and the user
    picks line [i]: it plays the record at position [i], whose id (non-empty,
    not starting with whitespace, with no tab or carriage return) is the
    text before the first tab of the picked line.  Before playing it has
    only run [which fzf] and [fzf]. *)
Theorem play_cached_plays_pick CD py_str iso fzf afplay s i item id line lines :
  fzf_lines py_str iso (list_cached CD (sys s)) = COk lines ->
  nth_error (list_cached CD (sys s)) i = Some item ->
  item_get item (s2z "id") = COk (JStr id) ->
  id <> [] -> py_isspace (hd 0 id) = false -> ~ In 9 id -> ~ In 13 id ->
  nth_error lines i = Some line ->
  fzf (join [10] lines) = FzfExit 0 (line ++ [10]) ->
  play_cached CD py_str iso PExit0 fzf afplay None s =
  play_selected CD afplay id
    (mkCli (mkWorld (files (sys s)) (log (sys s) ++ [ERun [s2z "which"; s2z "fzf"]; ERun fzf_cmd]) (clock (sys s)))
           (err s)).
Proof.
  intros Hls Hi Hid Hne Hsp H9 H13 Hl Hfzf.
  destruct (fzf_lines_nth _ _ _ _ _ _ Hls Hi) as [line' [Hl' Hf]]. rewrite Hl in Hl'. injection Hl' as <-.
  destruct (fzf_line_shape _ _ _ _ _ Hf Hid) as [rest [-> H45]]. cbn [fstr] in *.
  unfold play_cached, select_with_fzf, command_exists, lift, cbind, cgets, bind, emit, ret. cbn [sys err fst snd files log clock negb].
  rewrite (proj2 (frame_same CD (sys s) (mkWorld (files (sys s)) (log (sys s) ++ [ERun [s2z "which"; s2z "fzf"]]) (clock (sys s))) eq_refl)).
  destruct (list_cached CD (sys s)) as [|it its]; [destruct i; discriminate|].
  rewrite Hls. cbn [files log clock sys err]. rewrite <- app_assoc. cbn [app]. rewrite Hfzf. cbn [Z.eqb negb].
  assert (Hsel : strip (translate_newlines ((id ++ 9 :: rest) ++ [10])) = id ++ 9 :: rstrip (translate_newlines (rest ++ [10]))).
  { rewrite <- app_assoc, translate_app_no13 by exact H13. cbn [app].
    unfold strip. rewrite lstrip_id by (right; destruct id; [congruence|exact Hsp]).
    replace (translate_newlines (9 :: rest ++ [10])) with (9 :: translate_newlines (rest ++ [10])) by reflexivity.
    change (id ++ 9 :: translate_newlines (rest ++ [10])) with (id ++ [9] ++ translate_newlines (rest ++ [10])).
    rewrite app_assoc, rstrip_app, <- app_assoc; [reflexivity|].
    exists 45. split; [|reflexivity]. unfold translate_newlines. apply in_map_iff. exists 45. split; [reflexivity|].
    apply crlf_keep; [discriminate|]. apply in_or_app. left. exact H45. }
  rewrite Hsel.
  assert (Hs9 : split_on 9 (id ++ 9 :: rstrip (translate_newlines (rest ++ [10])))
                = id :: split_on 9 (rstrip (translate_newlines (rest ++ [10])))) by (apply split_on_app, H9).
  destruct (id ++ 9 :: rstrip (translate_newlines (rest ++ [10]))) as [|z l] eqn:Ez; [destruct id; discriminate|].
  rewrite Hs9. reflexivity.
Qed.

Lemma hexd_ascii n : 0 <= n < 16 -> 0 <= hexd n < 128.
Proof. intros H. unfold hexd. destruct (n <? 10); lia. Qed.

Lemma hex4_ascii n : Forall (fun c => 0 <= c < 128) (hex4 n).
Proof.
  unfold hex4. repeat constructor; apply hexd_ascii, Z.mod_pos_bound; lia.
Qed.

Lemma esc_ascii c : Forall (fun c => 0 <= c < 128) (esc c).
Proof.
  unfold esc.
  destruct (c =? 92); [repeat constructor; lia|].
  destruct (c =? 34); [repeat constructor; lia|].
  destruct (c =? 8); [repeat constructor; lia|].
  destruct (c =? 12); [repeat constructor; lia|].
  destruct (c =? 10); [repeat constructor; lia|].
  destruct (c =? 13); [repeat constructor; lia|].
  destruct (c =? 9); [repeat constructor; lia|].
  destruct ((32 <=? c) && (c <=? 126)) eqn:E.
  - apply andb_true_iff in E as [A B]. apply Z.leb_le in A, B. repeat constructor; lia.
  - destruct (c <? 65536).
    + constructor; [lia|]. constructor; [lia|]. apply hex4_ascii.
    + constructor; [lia|]. constructor; [lia|]. apply Forall_app. split; [apply hex4_ascii|].
      constructor; [lia|]. constructor; [lia|]. apply hex4_ascii.
Qed.

Lemma join_forall (P : Z -> Prop) (sep : pystr) l : Forall P sep -> Forall (Forall P) l -> Forall P (join sep l).
Proof.
  intros Hs Hl. induction Hl as [|x l Hx Hl IH]; [constructor|].
  destruct l as [|y l']; [exact Hx|].
  change (join sep (x :: y :: l')) with (x ++ sep ++ join sep (y :: l')).
  apply Forall_app; split; [exact Hx|]. apply Forall_app; split; assumption.
Qed.

Lemma enc_str_ascii s : Forall (fun c => 0 <= c < 128) (enc_str s).
Proof.
  unfold enc_str. constructor; [lia|]. apply Forall_app; split; [|repeat constructor; lia].
  induction s as [|c s IH]; [constructor|]. cbn [flat_map]. apply Forall_app; split; [apply esc_ascii|exact IH].
Qed.

(** X5: the text [json.dump] writes for a metadata record is pure ASCII,
    whatever Unicode the text, voice or instructions hold. *)
Theorem dump_flat_ascii kvs : Forall (fun c => 0 <= c < 128) (dump_flat kvs).
Proof.
  destruct kvs as [|kv kvs]; [repeat constructor; lia|].
  unfold dump_flat. apply Forall_app; split; [repeat constructor; lia|].
  apply Forall_app; split; [repeat constructor; lia|].
  apply Forall_app; split; [|repeat constructor; lia].
  apply join_forall; [repeat constructor; lia|].
  apply Forall_forall. intros x Hx. apply in_map_iff in Hx as [[k v] [<- _]].
  unfold enc_item. apply Forall_app; split; [apply enc_str_ascii|].
  apply Forall_app; split; [repeat constructor; lia|].
  destruct v; [apply enc_str_ascii|repeat constructor; lia].
Qed.




(** X7: [AudioCache.play] never changes a file.  It either returns
    without starting a process (and without returning [True]), or it found a
    record for the id whose ["audio_file"] names an existing path, ran
    exactly [afplay] on that path, and returns [True] exactly when [afplay]
    exits with status 0. *)
Theorem play_effects CD afplay id w :
  let (w', r) := play CD afplay id w in
  files w' = files w /\ clock w' = clock w /\
  ((log w' = log w /\ r <> Ok true) \/
   exists kv s, get_by_id CD w id = Some (JObj kv) /\ obj_get (s2z "audio_file") kv = Some (JStr s) /\
     path_exists w (pjoin CD s) = true /\
     log w' = log w ++ [ERun [s2z "afplay"; pstr (pjoin CD s)]] /\
     (r = Ok true <-> afplay = PExit0)).
Proof.
  unfold play, bind, gets.
  destruct (get_by_id CD w id) as [md|] eqn:G; [|repeat split; left; split; [reflexivity|discriminate]].
  destruct (truthy md) eqn:T; [|repeat split; left; split; [reflexivity|discriminate]].
  destruct md as [| | | | |s0|l|kv]; cbn [getitem throw];
    try (repeat split; left; split; [reflexivity|discriminate]).
  destruct (obj_get (s2z "audio_file") kv) as [af|] eqn:O; cbn [ret throw];
    [|repeat split; left; split; [reflexivity|discriminate]].
  destruct af as [| | | | |s|l|kv']; cbn [path_div throw ret];
    try (repeat split; left; split; [reflexivity|discriminate]).
  destruct (path_exists w (pjoin CD s)) eqn:P; cbn [negb ret];
    [|repeat split; left; split; [reflexivity|discriminate]].
  unfold catch, run_proc, bind, emit, ret, throw.
  destruct afplay; cbn; (split; [reflexivity|split; [reflexivity|]]); right; exists kv, s;
    (split; [reflexivity|split; [exact O|split; [exact P|split; [reflexivity|]]]]);
    split; intros H; try reflexivity; discriminate.
Qed.

Lemma write_file_frame p d w :
  (forall q, os_resolve q <> os_resolve p -> lookup (fst (write_file p d w)) q = lookup w q) /\
  (log (fst (write_file p d w)) = log w \/ log (fst (write_file p d w)) = log w ++ [EWrite (os_resolve p)]).
Proof.
  unfold write_file. destruct (lookup w p) as [[m x|m]|]; cbn [fst];
    try (split; [intros; reflexivity|left; reflexivity]);
    (split; [|right; reflexivity]); intros q Hq; rewrite lookup_upsert;
    destruct (path_eqb (os_resolve p) (os_resolve q)) eqn:E; try reflexivity;
    apply path_eqb_eq in E; congruence.
Qed.


(** X8: [OpenAITTSProvider.synthesize] with a non-empty [output_file]
    writes no path but the output file and starts no child process, whether
    it succeeds or raises. *)
Theorem openai_output_file_only cwd E text f voice instructions response_format w :
  f <> [] ->
  let (w', r) := OpenAI.synthesize cwd E text (Some f) voice instructions response_format w in
  (forall p, os_resolve p <> os_resolve (pjoin cwd f) -> lookup w' p = lookup w p) /\
  exists L, log w' = log w ++ L /\ no_run L.
Proof.
  intros Hf. unfold OpenAI.synthesize.
  destruct (negb (mem _ OpenAI.VOICES)); [cbn; split; [reflexivity|exists []; split; [rewrite app_nil_r; reflexivity|constructor]]|].
  destruct (negb (mem _ OpenAI.AUDIO_FORMATS)); [cbn; split; [reflexivity|exists []; split; [rewrite app_nil_r; reflexivity|constructor]]|].
  generalize (match voice with Some ((_ :: _) as v) => v | _ => OpenAI.DEFAULT_VOICE end) as v.
  generalize (match response_format with Some ((_ :: _) as f0) => f0 | _ => OpenAI.DEFAULT_FORMAT end) as fm.
  intros fm v. unfold catch.
  assert (Hb : (forall p, os_resolve p <> os_resolve (pjoin cwd f) ->
                  lookup (fst (OpenAI.synth_body cwd E text (Some f) v fm w)) p = lookup w p) /\
               exists L, log (fst (OpenAI.synth_body cwd E text (Some f) v fm w)) = log w ++ L /\ no_run L).
  { unfold OpenAI.synth_body, OpenAI.api_create, bind, emit, ret, throw.
    destruct f as [|c f']; [congruence|].
    destruct (OpenAI.api E); cbn [fst log files];
      try (split; [intros; reflexivity|exists [EApi v fm]; split; [reflexivity|repeat constructor]]).
    set (w1 := {| files := files w; log := log w ++ [EApi v fm]; clock := clock w |}).
    assert (Hw : forall d, (forall p, os_resolve p <> os_resolve (pjoin cwd (c :: f')) ->
                    lookup (fst (write_file (pjoin cwd (c :: f')) d w1)) p = lookup w p) /\
                 exists L, log (fst (write_file (pjoin cwd (c :: f')) d w1)) = log w ++ L /\ no_run L).
    { intros d. destruct (write_file_frame (pjoin cwd (c :: f')) d w1) as [F1 [F2|F2]]; split.
      - intros p Hp. rewrite F1 by exact Hp. apply lookup_files. reflexivity.
      - exists [EApi v fm]. split; [exact F2|repeat constructor].
      - intros p Hp. rewrite F1 by exact Hp. apply lookup_files. reflexivity.
      - exists [EApi v fm; EWrite (os_resolve (pjoin cwd (c :: f')))]. split; [rewrite F2; cbn [w1 log]; rewrite <- app_assoc; reflexivity|repeat constructor]. }
    unfold OpenAI.stream_to_file, bind, throw.
    destruct (OpenAI.stream E) as [a|a|a].
    - exact (Hw a).
    - destruct (write_file (pjoin cwd (c :: f')) a w1) as [w2 [u|e]] eqn:Ew; pose proof (Hw a) as H; rewrite Ew in H; exact H.
    - destruct (write_file (pjoin cwd (c :: f')) a w1) as [w2 [u|e]] eqn:Ew; pose proof (Hw a) as H; rewrite Ew in H; exact H. }
  destruct (OpenAI.synth_body cwd E text (Some f) v fm w) as [w1 [u|e]]; cbn [fst] in Hb; [exact Hb|].
  destruct e; cbn; try exact Hb; destruct (is_Exception _); exact Hb.
Qed.

(** X9: [OpenAITTSProvider.synthesize] without an output file, on a valid
    voice and format and a complete download into a temporary file: it
    writes the temporary file twice (created empty, then the audio), plays
    it with [afplay] for [wav], [pcm], [mp3] and [aac], and otherwise with
    [ffplay], falling back to [afplay] when [ffplay] fails or is missing;
    then it deletes the temporary file, leaving every other path as it was.
    It returns normally exactly when the last player run exits with
    status 0. *)
Theorem openai_player_choice cwd E text v fm instructions w audio :
  mem v OpenAI.VOICES = true -> mem fm OpenAI.AUDIO_FORMATS = true ->
  OpenAI.api E = OpenAI.ApiOk -> OpenAI.stream E = OpenAI.StreamOk audio ->
  (forall m, lookup w (OpenAI.tmp_path E) <> Some (Folder m)) ->
  let tmp := OpenAI.tmp_path E in
  let q := os_resolve tmp in
  let afplay := ERun [s2z "afplay"; pstr tmp] in
  let (w', r) := OpenAI.synthesize cwd E text None (Some v) instructions (Some fm) w in
  (forall p, lookup w' p = if path_eqb q (os_resolve p) then None else lookup w p) /\
  log w' = log w ++ [EApi v fm; EWrite q; EWrite q]
           ++ (if mem fm (map s2z ["wav"%string; "pcm"%string; "mp3"%string; "aac"%string]) then [afplay]
               else ERun [s2z "ffplay"; s2z "-autoexit"; s2z "-nodisp"; pstr tmp]
                    :: match OpenAI.ffplay_out E with PExitNonzero | PNotFound => [afplay] | _ => [] end)
           ++ [EUnlink q] /\
  (r = Ok tt <->
   if mem fm (map s2z ["wav"%string; "pcm"%string; "mp3"%string; "aac"%string]) then OpenAI.afplay_out E = PExit0
   else OpenAI.ffplay_out E = PExit0
        \/ ((OpenAI.ffplay_out E = PExitNonzero \/ OpenAI.ffplay_out E = PNotFound) /\ OpenAI.afplay_out E = PExit0)).
Proof.
  intros Hv Hf Ha Hs Hnf tmp q afplay.
  destruct v as [|c v']; [discriminate|]. destruct fm as [|d fm']; [discriminate|].
  unfold OpenAI.synthesize. rewrite Hv, Hf. cbn [negb].
  unfold catch, OpenAI.synth_body, OpenAI.api_create, OpenAI.named_temporary_file, OpenAI.stream_to_file,
    bind, emit, ret. rewrite Ha, Hs. fold tmp.
  assert (Hq : path_eqb q (os_resolve tmp) = true) by (apply path_eqb_eq; reflexivity).
  assert (HW : forall W dat, (forall m, lookup W tmp <> Some (Folder m)) ->
            write_file tmp dat W = (mkWorld (upsert q (RegFile (clock W) dat) (files W)) (log W ++ [EWrite q]) (clock W + 1), Ok tt)).
  { intros W dat H. unfold write_file. destruct (lookup W tmp) as [[]|] eqn:L; try reflexivity.
    exfalso; eapply H; reflexivity. }
  assert (LU : forall fs n l c p, lookup (mkWorld (upsert q n fs) l c) p =
            if path_eqb q (os_resolve p) then Some n else lookup (mkWorld fs l c) p).
  { intros. apply (lookup_upsert (mkWorld fs l c)). }
  rewrite HW by exact Hnf. cbn [files log clock].
  rewrite HW by (rewrite LU, Hq; discriminate). cbn [files log clock].
  unfold finally, OpenAI.play_tmp, run_proc, catch, bind, emit, ret, throw, unlink.
  assert (LR : forall fs l c p, lookup (mkWorld (remove_entry q fs) l c) p =
            if path_eqb q (os_resolve p) then None else lookup (mkWorld fs l c) p).
  { intros. apply (lookup_remove (mkWorld fs l c)). }
  destruct (mem _ (map s2z _)); destruct (OpenAI.afplay_out E); destruct (OpenAI.ffplay_out E);
    cbn -[lookup remove_entry s2z upsert os_resolve]; rewrite LU, Hq;
    cbn -[lookup remove_entry s2z upsert os_resolve]; fold q;
    (split; [intros p; rewrite LR, !LU; destruct (path_eqb q (os_resolve p)); reflexivity|]);
    (split; [rewrite <- !app_assoc; reflexivity|]);
    split; intros H; try discriminate; try reflexivity;
    repeat match goal with H : _ \/ _ |- _ => destruct H | H : _ /\ _ |- _ => destruct H end;
    try discriminate; auto.
Qed.

(** Witnesses: the theorems above applied where their hypotheses hold. *)

Lemma say_list_voices_roundtrip_witness :
  Forall voice_line voices2 /\
  snd (MacOS.list_voices (MacOS.SayOk (join [10] voices2 ++ [10])) w_tmp) = Ok voices2.
Proof.
  assert (HL : Forall voice_line voices2).
  { unfold voices2. repeat constructor; try discriminate; try reflexivity; cbn; intuition lia. }
  split; [exact HL|]. apply (say_list_voices_roundtrip voices2 w_tmp HL).
Defined.

Lemma play_cached_plays_pick_witness :
  Cli.fzf_lines py_str0 iso_minute0 (list_cached CD0 (sys (mkCli w_full []))) = COk lines_full /\
  nth_error (list_cached CD0 (sys (mkCli w_full []))) 0 = Some (nth 0 (list_cached CD0 w_full) JNull) /\
  item_get (nth 0 (list_cached CD0 w_full) JNull) (s2z "id") = COk (JStr (s2z "x11")) /\
  fzf_first (join [10] lines_full) = FzfExit 0 (nth 0 lines_full [] ++ [10]) /\
  play_cached CD0 py_str0 iso_minute0 PExit0 fzf_first PExit0 None (mkCli w_full []) =
  play_selected CD0 PExit0 (s2z "x11")
    (mkCli (mkWorld (files w_full) (log w_full ++ [ERun [s2z "which"; s2z "fzf"]; ERun fzf_cmd]) (clock w_full)) []).
Proof.
  assert (H1 : Cli.fzf_lines py_str0 iso_minute0 (list_cached CD0 (sys (mkCli w_full []))) = COk lines_full)
    by (vm_compute; reflexivity).
  assert (H2 : nth_error (list_cached CD0 (sys (mkCli w_full []))) 0 = Some (nth 0 (list_cached CD0 w_full) JNull))
    by (vm_compute; reflexivity).
  assert (H3 : item_get (nth 0 (list_cached CD0 w_full) JNull) (s2z "id") = COk (JStr (s2z "x11")))
    by (vm_compute; reflexivity).
  assert (H4 : fzf_first (join [10] lines_full) = FzfExit 0 (nth 0 lines_full [] ++ [10]))
    by (vm_compute; reflexivity).
  split; [exact H1|]. split; [exact H2|]. split; [exact H3|]. split; [exact H4|].
  apply (play_cached_plays_pick CD0 py_str0 iso_minute0 fzf_first PExit0 (mkCli w_full []) 0
           (nth 0 (list_cached CD0 w_full) JNull) (s2z "x11") (nth 0 lines_full []) lines_full
           H1 H2 H3); [discriminate|reflexivity|cbn; intuition lia|cbn; intuition lia|vm_compute; reflexivity|exact H4].
Defined.


Lemma openai_output_file_only_witness :
  s2z "out.mp3" <> [] /\
  let (w', r) := OpenAI.synthesize cwd0 env_broken (s2z "hi") (Some (s2z "out.mp3")) None None None w_tmp in
  (forall p, os_resolve p <> os_resolve (pjoin cwd0 (s2z "out.mp3")) -> lookup w' p = lookup w_tmp p) /\
  exists L, log w' = log w_tmp ++ L /\ no_run L.
Proof.
  split; [discriminate|].
  apply (openai_output_file_only cwd0 env_broken (s2z "hi") (s2z "out.mp3") None None None w_tmp).
  discriminate.
Defined.

Lemma openai_player_choice_witness :
  mem (s2z "nova") OpenAI.VOICES = true /\ mem (s2z "opus") OpenAI.AUDIO_FORMATS = true /\
  OpenAI.api env_opus = OpenAI.ApiOk /\ OpenAI.stream env_opus = OpenAI.StreamOk (s2z "OggS") /\
  (forall m, lookup w_tmp (OpenAI.tmp_path env_opus) <> Some (Folder m)) /\
  snd (OpenAI.synthesize cwd0 env_opus (s2z "hi") None (Some (s2z "nova")) None (Some (s2z "opus")) w_tmp) = Ok tt.
Proof.
  assert (H1 : mem (s2z "nova") OpenAI.VOICES = true) by reflexivity.
  assert (H2 : mem (s2z "opus") OpenAI.AUDIO_FORMATS = true) by reflexivity.
  assert (H5 : forall m, lookup w_tmp (OpenAI.tmp_path env_opus) <> Some (Folder m))
    by (intros m; vm_compute; discriminate).
  split; [exact H1|]. split; [exact H2|]. split; [reflexivity|]. split; [reflexivity|]. split; [exact H5|].
  pose proof (openai_player_choice cwd0 env_opus (s2z "hi") (s2z "nova") (s2z "opus") None w_tmp (s2z "OggS")
                H1 H2 eq_refl eq_refl H5) as H.
  cbv zeta in H.
  destruct (OpenAI.synthesize cwd0 env_opus (s2z "hi") None (Some (s2z "nova")) None (Some (s2z "opus")) w_tmp)
    as [w' r].
  destruct H as [_ [_ Hr]]. apply Hr. vm_compute. right. split; [right|]; reflexivity.
Defined.

End Extras.
